(** * Plugin selection and dispatch of the lxi-tools screenshot front end

    A shallow embedding of [src/plugins/screenshot_siglent-sdm3000.c]: the
    Siglent SDM3000 plugin and the screenshot core ([get_device_id],
    [regex_match], [screenshot_plugin_register], [screenshot_list_plugins]
    and [screenshot]).

    C strings are modelled as [string] (no embedded NUL), [int] values as
    [Z], the plugin table as a list of optional descriptors read by index,
    and the calls to liblxi, stdout and the file system as events appended
    to a trace.  The POSIX regex engine and the instrument are parameters of
    the development. *)

From Stdlib Require Import ZArith Lia Bool Ascii String.
From stdpp Require Import base list.

Local Open Scope string_scope.
Local Open Scope Z_scope.

(** ** C strings *)

Definition strlen (s : string) : Z := Z.of_nat (String.length s).

(** [strcmp a b == 0]: byte-wise, hence case-sensitive, equality. *)
Definition strcmp_eq (a b : string) : bool := String.eqb a b.

Definition NUL : ascii := Ascii.zero.
Definition newline : ascii := Ascii.ascii_of_nat 10.

(** The text "\n". *)
Definition nl : string := String newline EmptyString.

(** ** strtok

    [strtok] keeps a hidden pointer into the buffer it tokenises.  The
    pointer is modelled by the text that is still to be scanned. *)

Fixpoint is_delim (delim : string) (c : ascii) : bool :=
  match delim with
  | EmptyString => false
  | String d delim' => Ascii.eqb c d || is_delim delim' c
  end.

(** [s + strspn(s, delim)] *)
Fixpoint skip_delims (delim : string) (s : string) : string :=
  match s with
  | EmptyString => EmptyString
  | String c s' => if is_delim delim c then skip_delims delim s' else s
  end.

(** The token that starts at [s], and the text after the delimiter that
    ends it (that delimiter is overwritten with NUL). *)
Fixpoint cut_token (delim : string) (s : string) : string * string :=
  match s with
  | EmptyString => (EmptyString, EmptyString)
  | String c s' =>
      if is_delim delim c then (EmptyString, s')
      else let (tok, rest) := cut_token delim s' in (String c tok, rest)
  end.

(** [strtok str delim save]: [str = None] is the call [strtok(NULL, delim)].
    Returns the token ([None] for NULL) and the new hidden pointer. *)
Definition strtok (str : option string) (delim : string) (save : string)
  : option string * string :=
  let s := skip_delims delim (match str with Some s => s | None => save end) in
  match s with
  | EmptyString => (None, EmptyString)
  | String _ _ => let (tok, rest) := cut_token delim s in (Some tok, rest)
  end.

(** ** The specification's view of a pattern string

    The fragments of a pattern specification: the maximal non-empty runs of
    characters between separators, left to right. *)

Definition emit (cur : string) : list string :=
  match cur with
  | EmptyString => []
  | String _ _ => [cur]
  end.

Fixpoint fragments_from (sep : ascii -> bool) (s cur : string) : list string :=
  match s with
  | EmptyString => emit cur
  | String c s' =>
      if sep c then (emit cur ++ fragments_from sep s' EmptyString)%list
      else fragments_from sep s' (cur ++ String c EmptyString)%string
  end.

Definition fragments (sep : ascii -> bool) (s : string) : list string :=
  fragments_from sep s EmptyString.

(** Fragments separated by the space character only. *)
Definition space_fragments (s : string) : list string :=
  fragments (fun c => Ascii.eqb c " "%char) s.

(** Fragments separated by any whitespace character of the C locale
    (space, \t, \n, \v, \f, \r). *)
Definition is_whitespace (c : ascii) : bool :=
  let n := Z.of_nat (Ascii.nat_of_ascii c) in
  (n =? 32) || ((9 <=? n) && (n <=? 13)).

Definition whitespace_fragments (s : string) : list string :=
  fragments is_whitespace s.

(** ** regex_match and the token walk *)

Section Matcher.

(** The POSIX regex engine of libc.  [regcomp pattern] is [None] when
    [regcomp(&regex, pattern, REG_EXTENDED | REG_NOSUB)] returns non-zero;
    [regexec r s] is [true] when [regexec] returns 0, that is when the
    expression matches somewhere in [s]. *)
Variable regex_t : Type.
Variable regcomp : string -> option regex_t.
Variable regexec : regex_t -> string -> bool.

Definition regex_match (str pattern : string) : bool :=
  match regcomp pattern with
  | None => false (* No match *)
  | Some regex => regexec regex str
  end.

(** The inner loop of [screenshot]:
    [while (token_found == true) { ... }].  The loop is left when
    [strtok] returns NULL, so [token] is NULL again when the next plugin
    is examined.  Every turn but the last consumes at least one character
    of the buffer; [fuel] bounds the number of turns. *)
Fixpoint regex_walk (id : string) (fuel : nat) (regex_buffer : string)
    (token : option string) (save : string) (match_count : Z) : option Z :=
  match fuel with
  | O => None
  | S fuel' =>
      let (token', save') :=
        match token with
        | None => strtok (Some regex_buffer) " " save
        | Some _ => strtok None " " save
        end in
      match token' with
      | Some tok =>
          regex_walk id fuel' regex_buffer token' save'
            (if regex_match id tok then match_count + 1 else match_count)
      | None => Some match_count (* token_found = false *)
      end
  end.

(** [match_count] when the walk over [regex] is over. *)
Definition count_matches (id regex : string) : Z :=
  default 0
    (regex_walk id (S (String.length regex)) regex None EmptyString 0).

(** The number of fragments of a list that match [id]. *)
Definition matching (id : string) (l : list string) : Z :=
  Z.of_nat (List.length (List.filter (regex_match id) l)).

End Matcher.

Arguments regex_match {regex_t} regcomp regexec str pattern.
Arguments matching {regex_t} regcomp regexec id l.
Arguments regex_walk {regex_t} regcomp regexec id fuel regex_buffer token
  save match_count.
Arguments count_matches {regex_t} regcomp regexec id regex.

(** ** Effects: the trace of external calls

    The calls to liblxi, the writes to stdout and stderr and the file that
    is written are recorded, in program order, in a trace. *)

Inductive event : Type :=
| Connect (address : string) (port timeout : Z)
    (* lxi_connect(address, port, NULL, timeout, VXI11) *)
| Send (device : Z) (message : string) (length timeout : Z)
| Receive (device : Z) (length timeout : Z)
| Disconnect (device : Z)
| Stdout (text : string)
| Stderr (text : string)
| Fwrite (filename data : string).

Inductive fault : Type :=
| OutOfBounds (index : Z) (* access to id[index] outside the array *)
| NullPointer             (* plugin_list[i] dereferenced while NULL *)
| BufferOverflow (needed : Z).
    (* sprintf of [needed] bytes into a smaller array *)

Inductive result (A : Type) : Type :=
| Returns (a : A)
| Exits (status : Z)      (* exit(status) *)
| Faults (f : fault).     (* undefined behaviour *)
Arguments Returns {A} a.
Arguments Exits {A} status.
Arguments Faults {A} f.

Definition M (A : Type) : Type := list event -> result A * list event.

Definition ret {A} (a : A) : M A := fun tr => (Returns a, tr).

Definition bind {A B} (m : M A) (k : A -> M B) : M B :=
  fun tr =>
    match m tr with
    | (Returns a, tr') => k a tr'
    | (Exits status, tr') => (Exits status, tr')
    | (Faults f, tr') => (Faults f, tr')
    end.

Notation "x <- c1 ;; c2" := (bind c1 (fun x => c2))
  (at level 100, c1 at next level, right associativity).
Notation "c1 ;; c2" := (bind c1 (fun _ => c2))
  (at level 100, right associativity).

Definition emit_event (e : event) : M unit :=
  fun tr => (Returns tt, (tr ++ [e])%list).
Definition exit {A} (status : Z) : M A := fun tr => (Exits status, tr).
Definition raise {A} (f : fault) : M A := fun tr => (Faults f, tr).

Definition printf (text : string) : M unit := emit_event (Stdout text).
Definition putchar (c : ascii) : M unit :=
  emit_event (Stdout (String c EmptyString)).

(** [error_printf] is declared in error.h, which is not among the sources;
    it is taken to write its message to stderr. *)
Definition error_printf (text : string) : M unit := emit_event (Stderr text).

(** Everything written to stdout, in order. *)
Fixpoint stdout_of (tr : list event) : string :=
  match tr with
  | [] => EmptyString
  | Stdout text :: tr' => (text ++ stdout_of tr')%string
  | _ :: tr' => stdout_of tr'
  end.

(** The calls made to the transport, in order. *)
Definition is_transport (e : event) : bool :=
  match e with
  | Connect _ _ _ | Send _ _ _ _ | Receive _ _ _ | Disconnect _ => true
  | _ => false
  end.

Definition transport_calls (tr : list event) : list event :=
  List.filter is_transport tr.

(** The timeout argument of a transport call that takes one. *)
Definition timeout_of (e : event) : option Z :=
  match e with
  | Connect _ _ timeout | Send _ _ _ timeout | Receive _ _ timeout =>
      Some timeout
  | _ => None
  end.

(** ** Constants *)

Definition IMAGE_SIZE_MAX : Z := 0x400000.
Definition PLUGIN_LIST_SIZE_MAX : Z := 50.
Definition ID_LENGTH_MAX : Z := 65536.

(** From stdlib.h and liblxi's lxi.h. *)
Definition EXIT_FAILURE : Z := 1.
Definition LXI_ERROR : Z := -1.

(** ** Buffers

    A [char] buffer is modelled by the bytes it holds from index 0 on, up
    to the first NUL that follows the bytes of interest.  The bytes after
    the ones a call has written are whatever the memory held before: the
    contents of an uninitialised buffer are a parameter ([world]). *)

Fixpoint buffer_get (buf : string) (n : nat) : option ascii :=
  match buf, n with
  | EmptyString, _ => None
  | String c _, O => Some c
  | String _ buf', S n' => buffer_get buf' n'
  end.

Fixpoint buffer_set (buf : string) (n : nat) (c : ascii) : string :=
  match buf, n with
  | EmptyString, _ => EmptyString
  | String _ buf', O => String c buf'
  | String b buf', S n' => String b (buffer_set buf' n' c)
  end.

(** [data] written over the start of [buf]. *)
Fixpoint overwrite (data buf : string) : string :=
  match data with
  | EmptyString => buf
  | String c data' =>
      String c (overwrite data' (match buf with
                                 | EmptyString => EmptyString
                                 | String _ buf' => buf'
                                 end))
  end.

(** The C string that starts at index 0: the bytes before the first NUL.
    The end of the modelled bytes counts as a NUL, and the read is not
    bounded by the size of the array.  Where no NUL stands inside the
    array, the code reads past its end, which is undefined; [terminated],
    below, says that one does, and [c_string] is then the string that the
    code reads. *)
Fixpoint c_string (buf : string) : string :=
  match buf with
  | EmptyString => EmptyString
  | String c buf' =>
      if Ascii.eqb c NUL then EmptyString else String c (c_string buf')
  end.

(** No byte of [s] is NUL. *)
Fixpoint nul_free (s : string) : bool :=
  match s with
  | EmptyString => true
  | String c s' => negb (Ascii.eqb c NUL) && nul_free s'
  end.

(** [id[index]], an access outside the array being undefined. *)
Definition id_read (id : string) (index : Z) : M ascii :=
  if (index <? 0) || (ID_LENGTH_MAX <=? index) then raise (OutOfBounds index)
  else ret (default NUL (buffer_get id (Z.to_nat index))).

Definition id_write (id : string) (index : Z) (c : ascii) : M string :=
  if (index <? 0) || (ID_LENGTH_MAX <=? index) then raise (OutOfBounds index)
  else ret (buffer_set id (Z.to_nat index) c).

(** ** The environment *)

Record world : Type := {
  (** device handle returned by [lxi_connect], or [LXI_ERROR] *)
  connect_reply : list event -> Z;
  (** bytes delivered by [lxi_receive]; [None] when it fails *)
  receive_reply : list event -> option string;
  (** [None] when [fopen] succeeds, else the text of [strerror(errno)] *)
  fopen_reply : list event -> option string;
  (** the text built by [date_time()] from the clock *)
  date_time : list event -> string;
  (** [option.screenshot_filename] and [option.ip] (options.h) *)
  option_screenshot_filename : string;
  option_ip : string;
  (** contents of the uninitialised [id] array and [malloc]ed block *)
  id_uninitialised : string;
  malloc_uninitialised : string
}.

(** ** Plugin descriptors (struct screenshot_plugin, screenshot.h)

    The handler has the type with which [screenshot] calls it:
    [plugin_list[i]->screenshot(address, timeout)]. *)

Module Plugin.
Record t : Type := {
  name : string;
  description : string;
  regex : option string; (* [None] is a NULL .regex entry *)
  screenshot : string -> Z -> M Z
}.
End Plugin.

Abbreviation screenshot_plugin := Plugin.t.

(** The type of [plugin_list]: an array of pointers to descriptors, [None]
    being NULL. *)
Abbreviation plugin_table := (list (option screenshot_plugin)).

(** ** The program *)

Section Program.

Variable regex_t : Type.
Variable regcomp : string -> option regex_t.
Variable regexec : regex_t -> string -> bool.
Variable W : world.

(** *** liblxi *)

Definition lxi_connect (address : string) (port timeout : Z) : M Z :=
  fun tr =>
    let tr' := (tr ++ [Connect address port timeout])%list in
    (Returns (connect_reply W tr'), tr').

Definition lxi_send (device : Z) (message : string) (length timeout : Z)
  : M unit :=
  emit_event (Send device message length timeout).

(** Returns the number of bytes received, or [LXI_ERROR], and the
    contents of [message] after the call.  The transport delivers no more
    than [length] bytes. *)
Definition lxi_receive (device : Z) (message : string) (length timeout : Z)
  : M (Z * string) :=
  fun tr =>
    let tr' := (tr ++ [Receive device length timeout])%list in
    match receive_reply W tr' with
    | Some data => (Returns (strlen data, overwrite data message), tr')
    | None => (Returns (LXI_ERROR, message), tr')
    end.

Definition lxi_disconnect (device : Z) : M unit :=
  emit_event (Disconnect device).

(** *** get_device_id *)

(** The last statement of [get_device_id]:
    [if (id[length-1] == '\n') id[length-1] = 0;] *)
Definition remove_trailing_newline (id : string) (length : Z) : M string :=
  c <- id_read id (length - 1) ;;
  if Ascii.eqb c newline then id_write id (length - 1) NUL
  else ret id.

(** Returns the status and the contents of [id] after the call. *)
Definition get_device_id (address : string) (id : string) (timeout : Z)
  : M (Z * string) :=
  (* Connect to LXI instrument *)
  device <- lxi_connect address 0 timeout ;;
  if device =? LXI_ERROR then
    printf ("Error: Failed to connect" ++ nl)%string ;;
    ret (1, id)
  else
    (* Get instrument ID *)
    let command := "*IDN?" in
    lxi_send device command (strlen command) timeout ;;
    r <- lxi_receive device id ID_LENGTH_MAX timeout ;;
    let (length, id) := r in
    if length <? 0 then
      printf ("Error: Failed to receive message" ++ nl)%string ;;
      ret (1, id)
    else
      id <- remove_trailing_newline id length ;;
      ret (0, id).

(** The handle that [get_device_id] obtains from [lxi_connect], and the
    trace once the identity has been asked for and received. *)
Definition connected (address : string) (timeout : Z) (tr : list event) : Z :=
  connect_reply W (tr ++ [Connect address 0 timeout])%list.

Definition queried (address : string) (timeout : Z) (tr : list event)
  : list event :=
  (tr ++ [Connect address 0 timeout;
          Send (connected address timeout tr) "*IDN?" 5 timeout;
          Receive (connected address timeout tr) ID_LENGTH_MAX timeout])%list.

(** *** date_time

    The call [date_time()]: the text, which the environment gives, is
    built by [sprintf] in [static char date_time_string[50]]. *)
Definition call_date_time : M string :=
  fun tr =>
    let text := date_time W tr in
    if strlen text + 1 <=? 50 then (Returns text, tr)
    else (Faults (BufferOverflow (strlen text + 1)), tr).

(** *** screenshot_file_dump

    The automatic file name is built by [sprintf] in
    [char automatic_filename[1000]]. *)
Definition screenshot_file_dump (data : string) (length : Z)
    (format : string) : M unit :=
  (* Resolve screenshot filename *)
  screenshot_filename <-
    (if strlen (option_screenshot_filename W) =? 0 then
       text <- call_date_time ;;
       let automatic_filename :=
         ("screenshot_" ++ option_ip W ++ "_" ++ text ++ "."
            ++ format)%string in
       if strlen automatic_filename + 1 <=? 1000 then ret automatic_filename
       else raise (BufferOverflow (strlen automatic_filename + 1))
     else ret (option_screenshot_filename W)) ;;
  (* Write screenshot file *)
  fun tr =>
    match fopen_reply W tr with
    | Some reason =>
        (printf ("Error: Could not write screenshot file (" ++ reason
                   ++ ")" ++ nl)%string ;;
         exit EXIT_FAILURE) tr
    | None =>
        (emit_event
           (Fwrite screenshot_filename
              (String.substring 0 (Z.to_nat length) data)) ;;
         printf ("Saved screenshot image to " ++ screenshot_filename
                   ++ nl)%string) tr
    end.

(** *** The Siglent SDM3000 plugin *)
Definition siglent_sdm3000_screenshot (address id : string) (timeout : Z)
  : M Z :=
  let response := malloc_uninitialised W in
  (* Connect to LXI instrument *)
  device <- lxi_connect address 0 timeout ;;
  if device =? LXI_ERROR then
    error_printf ("Failed to connect" ++ nl)%string ;;
    ret 1
  else
    (* Send SCPI command to grab BMP image *)
    let command := "scdp" in
    lxi_send device command (strlen command) timeout ;;
    r <- lxi_receive device response IMAGE_SIZE_MAX timeout ;;
    let (length, response) := r in
    if length <? 0 then
      error_printf ("Failed to receive message" ++ nl)%string ;;
      ret 1
    else
      (* Dump received BMP image data to file *)
      screenshot_file_dump response length "bmp" ;;
      (* Disconnect *)
      lxi_disconnect device ;;
      ret 0.

(** The descriptor.  The core calls a handler with [(address, timeout)];
    the [id] argument is unused by this handler. *)
Definition siglent_sdm3000 : screenshot_plugin :=
  {| Plugin.name := "siglent-sdm3000";
     Plugin.description :=
       "Siglent SDM 3000/3000X series digital multimeter";
     Plugin.regex :=
       Some "SIGLENT TECHNOLOGIES Siglent Technologies SDM3...";
     Plugin.screenshot :=
       fun address timeout =>
         siglent_sdm3000_screenshot address EmptyString timeout |}.

(** *** The plugin table

    [plugin_list] is an array of [PLUGIN_LIST_SIZE_MAX] pointers, all
    NULL at start: a list of that length.  The loops over it have the form
    [while ((i < PLUGIN_LIST_SIZE_MAX) && (plugin_list[i] != NULL))];
    they are written by recursion on [PLUGIN_LIST_SIZE_MAX - i]. *)

Definition empty_plugin_list : plugin_table :=
  replicate (Z.to_nat PLUGIN_LIST_SIZE_MAX) None.

(** [plugin_list[i]], with NULL for a slot that holds no descriptor. *)
Definition slot (plugin_list : plugin_table) (i : Z)
  : option screenshot_plugin :=
  match plugin_list !! Z.to_nat i with
  | Some (Some plugin) => Some plugin
  | _ => None
  end.

(** Find first available entry in plugin list *)
Fixpoint first_free (plugin_list : plugin_table) (n : nat) (i : Z) : Z :=
  match n with
  | O => i
  | S n' =>
      match slot plugin_list i with
      | Some _ => first_free plugin_list n' (i + 1)
      | None => i
      end
  end.

Definition screenshot_plugin_register (plugin_list : plugin_table)
    (plugin : screenshot_plugin) : M plugin_table :=
  let i := first_free plugin_list (Z.to_nat PLUGIN_LIST_SIZE_MAX) 0 in
  if i >=? PLUGIN_LIST_SIZE_MAX then
    printf ("Error: Screenshot plugin list full" ++ nl)%string ;;
    exit EXIT_FAILURE
  else
    (* Add plugin *)
    ret (<[Z.to_nat i := Some plugin]> plugin_list).

(** Registration of a sequence of descriptors, in order. *)
Fixpoint register_all (plugin_list : plugin_table)
    (plugins : list screenshot_plugin) : M plugin_table :=
  match plugins with
  | [] => ret plugin_list
  | plugin :: plugins' =>
      plugin_list' <- screenshot_plugin_register plugin_list plugin ;;
      register_all plugin_list' plugins'
  end.

(** [screenshot_register_plugins]: the five built-in descriptors, which are
    defined in other files, are registered in this order. *)
Definition screenshot_register_plugins
    (keysight_iv2000x rigol_1000 rigol_2000 rs_hmo1000 tektronix_2000
       : screenshot_plugin) : M plugin_table :=
  register_all empty_plugin_list
    [keysight_iv2000x; rigol_1000; rigol_2000; rs_hmo1000; tektronix_2000].

(** *** screenshot_list_plugins *)

(** The value that an [int] takes when a [size_t] is assigned to it: the
    value itself up to [2^31 - 1], and the value modulo [2^32], as a signed
    number, beyond. *)
Definition int_of_size_t (n : Z) : Z := (n + 2 ^ 31) mod 2 ^ 32 - 2 ^ 31.

(** Find length of longest plugin name *)
Fixpoint longest_name (plugin_list : plugin_table) (n : nat)
    (i length_max : Z) : Z :=
  match n with
  | O => length_max
  | S n' =>
      match slot plugin_list i with
      | Some plugin =>
          let length := int_of_size_t (strlen (Plugin.name plugin)) in
          longest_name plugin_list n' (i + 1)
            (if length_max <? length then length else length_max)
      | None => length_max
      end
  end.

(** [for (j=0; j<bound; j++) putchar(' ');], for a bound that the [int]
    counter [j] can reach. *)
Fixpoint putchar_times (n : nat) (c : ascii) : M unit :=
  match n with
  | O => ret tt
  | S n' => putchar c ;; putchar_times n' c
  end.

Definition put_spaces (bound : Z) : M unit :=
  putchar_times (Z.to_nat bound) " "%char.

(** [int - size_t] is computed in [size_t]. *)
Definition size_t_sub (a b : Z) : Z := (a - b) mod 2 ^ 64.

Fixpoint print_rows (plugin_list : plugin_table) (n : nat)
    (i length_max : Z) : M unit :=
  match n with
  | O => ret tt
  | S n' =>
      match slot plugin_list i with
      | Some plugin =>
          put_spaces (size_t_sub length_max (strlen (Plugin.name plugin))) ;;
          printf (Plugin.name plugin) ;;
          printf ("   " ++ Plugin.description plugin ++ nl)%string ;;
          print_rows plugin_list n' (i + 1) length_max
      | None => ret tt
      end
  end.

Definition screenshot_list_plugins (plugin_list : plugin_table) : M unit :=
  let length_max :=
    longest_name plugin_list (Z.to_nat PLUGIN_LIST_SIZE_MAX) 0 0 in
  (* Pretty print list of available plugins *)
  put_spaces (length_max - 4) ;;
  printf ("Name   Description" ++ nl)%string ;;
  print_rows plugin_list (Z.to_nat PLUGIN_LIST_SIZE_MAX) 0 length_max.

(** *** screenshot *)

(** Find relevant screenshot plugin (match instrument ID to plugin).
    [id] is the C string held by the array [id]; the loop returns
    [(plugin_winner, match_count_max)]. *)
Fixpoint detect_loop (plugin_list : plugin_table) (id : string) (n : nat)
    (i plugin_winner match_count_max : Z) : Z * Z :=
  match n with
  | O => (plugin_winner, match_count_max)
  | S n' =>
      match slot plugin_list i with
      | Some plugin =>
          match Plugin.regex plugin with
          | None =>
              (* Skip plugin if it has no .regex entry *)
              detect_loop plugin_list id n' (i + 1)
                plugin_winner match_count_max
          | Some regex =>
              (* Walk through space separated regular expressions *)
              let match_count :=
                count_matches regcomp regexec id regex in
              (* Plugin with most matches wins *)
              if match_count_max <? match_count then
                detect_loop plugin_list id n' (i + 1) i match_count
              else
                detect_loop plugin_list id n' (i + 1)
                  plugin_winner match_count_max
          end
      | None => (plugin_winner, match_count_max)
      end
  end.

(** Find relevant screenshot plugin (match specified plugin name to
    plugin).  Returns [(no_match, i)]. *)
Fixpoint find_loop (plugin_list : plugin_table) (plugin_name : string)
    (n : nat) (i : Z) : bool * Z :=
  match n with
  | O => (true, i)
  | S n' =>
      match slot plugin_list i with
      | Some plugin =>
          if strcmp_eq (Plugin.name plugin) plugin_name then (false, i)
          else find_loop plugin_list plugin_name n' (i + 1)
      | None => (true, i)
      end
  end.

(** The descriptors that the loops over the table visit, with their
    indices: the entries from index [i] up to the first NULL. *)
Fixpoint scan (plugin_list : plugin_table) (n : nat) (i : Z)
  : list (Z * screenshot_plugin) :=
  match n with
  | O => []
  | S n' =>
      match slot plugin_list i with
      | Some plugin => (i, plugin) :: scan plugin_list n' (i + 1)
      | None => []
      end
  end.

Definition registered (plugin_list : plugin_table)
  : list (Z * screenshot_plugin) :=
  scan plugin_list (Z.to_nat PLUGIN_LIST_SIZE_MAX) 0.

(** The value of [match_count] when a descriptor is compared with the
    running best; a descriptor without [.regex] is skipped, and counts
    no match. *)
Definition score (id : string) (plugin : screenshot_plugin) : Z :=
  match Plugin.regex plugin with
  | None => 0
  | Some regex => count_matches regcomp regexec id regex
  end.

(** The index that autodetection selects, or -1. *)
Definition autodetect (plugin_list : plugin_table) (id : string) : Z :=
  fst (detect_loop plugin_list id (Z.to_nat PLUGIN_LIST_SIZE_MAX) 0 (-1) 0).

(** [plugin_list[i]->...] *)
Definition deref (plugin_list : plugin_table) (i : Z)
  : M screenshot_plugin :=
  match slot plugin_list i with
  | Some plugin => ret plugin
  | None => raise NullPointer
  end.

Definition screenshot (plugin_list : plugin_table)
    (address plugin_name filename : string) (timeout : Z) : M Z :=
  (* Check for required options *)
  if strlen address =? 0 then
    printf ("Error: Missing address" ++ nl)%string ;;
    exit EXIT_FAILURE
  else
    selection <-
      (if strlen plugin_name =? 0 then
         (* Get instrument ID; the argument is [timeout != 0] *)
         r <- get_device_id address (id_uninitialised W)
                (if timeout =? 0 then 0 else 1) ;;
         let (status, id) := r in
         if negb (status =? 0) then
           printf ("Error: Unable to retrieve instrument ID" ++ nl)%string ;;
           exit EXIT_FAILURE
         else
           let (plugin_winner, _) :=
             detect_loop plugin_list (c_string id)
               (Z.to_nat PLUGIN_LIST_SIZE_MAX) 0 (-1) 0 in
           if plugin_winner =? -1 then
             printf ("Error: Could not autodetect which screenshot plugin to use - please specify plugin name manually" ++ nl)%string ;;
             exit EXIT_FAILURE
           else
             plugin <- deref plugin_list plugin_winner ;;
             printf ("Loaded " ++ Plugin.name plugin
                       ++ " screenshot plugin" ++ nl)%string ;;
             ret (false, plugin_winner)
       else
         ret (find_loop plugin_list plugin_name
                (Z.to_nat PLUGIN_LIST_SIZE_MAX) 0)) ;;
    let (no_match, i) := selection : bool * Z in
    if no_match then
      printf ("Error: Unknown plugin name" ++ nl)%string ;;
      exit EXIT_FAILURE
    else
      (* Call capture screenshot function *)
      plugin <- deref plugin_list i ;;
      Plugin.screenshot plugin address timeout.

End Program.

Arguments detect_loop {regex_t} regcomp regexec plugin_list id n i
  plugin_winner match_count_max.
Arguments score {regex_t} regcomp regexec id plugin.
Arguments autodetect {regex_t} regcomp regexec plugin_list id.
Arguments screenshot {regex_t} regcomp regexec W plugin_list address
  plugin_name filename timeout.

(** ** A small regex engine and a bench instrument, to run the program

    [Literal] accepts the patterns made of ordinary characters and of the
    wildcard [.], on which it agrees with POSIX extended regular
    expressions.  Every pattern that holds another special character is
    rejected, as [regcomp] rejects the pattern "(". *)

Module Literal.

Definition special (c : ascii) : bool :=
  is_delim "\^$[]|()*+?{}" c.

Fixpoint well_formed (pattern : string) : bool :=
  match pattern with
  | EmptyString => true
  | String c pattern' => negb (special c) && well_formed pattern'
  end.

Definition regcomp (pattern : string) : option string :=
  if well_formed pattern then Some pattern else None.

Fixpoint matches_here (pattern s : string) : bool :=
  match pattern, s with
  | EmptyString, _ => true
  | String _ _, EmptyString => false
  | String p pattern', String c s' =>
      (Ascii.eqb p "."%char || Ascii.eqb p c) && matches_here pattern' s'
  end.

Fixpoint regexec (pattern s : string) : bool :=
  matches_here pattern s
  || match s with
     | EmptyString => false
     | String _ s' => regexec pattern s'
     end.

End Literal.

Module Bench.

(** An instrument that accepts the connection with handle 3 and answers
    every query with [reply]. *)
Definition instrument (reply : option string) : world :=
  {| connect_reply := fun _ => 3;
     receive_reply := fun _ => reply;
     fopen_reply := fun _ => None;
     date_time := fun _ => "2017-11-05_12:00:00";
     option_screenshot_filename := EmptyString;
     option_ip := "10.0.0.42";
     id_uninitialised := EmptyString;
     malloc_uninitialised := EmptyString |}.

(** A handler that only reports the timeout it was called with. *)
Definition probe (label : string) (address : string) (timeout : Z) : M Z :=
  printf label ;; ret timeout.

Definition plugin (name : string) (regex : option string)
  : screenshot_plugin :=
  {| Plugin.name := name;
     Plugin.description := ("description of " ++ name)%string;
     Plugin.regex := regex;
     Plugin.screenshot := probe name |}.

(** The table after registering [plugins] in order. *)
Definition table (plugins : list screenshot_plugin) : plugin_table :=
  match register_all empty_plugin_list plugins [] with
  | (Returns plugin_list, _) => plugin_list
  | _ => empty_plugin_list
  end.

(** Sample descriptors and tables. *)
Definition foo : screenshot_plugin := plugin "a" (Some "FOO").
Definition twin : screenshot_plugin := plugin "a2" (Some "FOO").
Definition foo_bar : screenshot_plugin := plugin "b" (Some "FOO BAR").
Definition silent : screenshot_plugin := plugin "longname" None.
Definition broken : screenshot_plugin := plugin "c" (Some "(").

Definition twins : plugin_table := table [foo; twin; foo_bar].
Definition family : plugin_table := table [foo; foo_bar; silent].

(** A Siglent SDM3055, which answers "scdp" with an image. *)
Definition idn : string :=
  ("Siglent Technologies,SDM3055,SDM35FAD1R1234,1.01.01.19" ++ nl)%string.

Definition asked_for_image (e : event) : bool :=
  match e with
  | Send _ message _ _ => String.eqb message "scdp"
  | _ => false
  end.

Definition sdm3055 : world :=
  {| connect_reply := fun _ => 3;
     receive_reply :=
       fun tr => if existsb asked_for_image tr then Some "BM6" else Some idn;
     fopen_reply := fun _ => None;
     date_time := fun _ => "2017-11-05_12:00:00";
     option_screenshot_filename := EmptyString;
     option_ip := "10.0.0.42";
     id_uninitialised := EmptyString;
     malloc_uninitialised := EmptyString |}.

(** The pattern string "A\tB". *)
Definition tabbed : string := String "A" (String "009" (String "B" "")).

End Bench.

(** ** The specification's view of the registry

    An ordered collection of descriptors, in registration order.  It is
    held by the table as its first entries, the other entries being NULL;
    the n-th registered descriptor has index n. *)

Definition table_of (plugins : list screenshot_plugin) : plugin_table :=
  ((Some <$> plugins)
   ++ replicate (Z.to_nat PLUGIN_LIST_SIZE_MAX - List.length plugins)%nat
        None)%list.

Fixpoint number_from (i : Z) (plugins : list screenshot_plugin)
  : list (Z * screenshot_plugin) :=
  match plugins with
  | [] => []
  | plugin :: plugins' => (i, plugin) :: number_from (i + 1) plugins'
  end.

(** ** The specification's view of the listing *)

Definition INT_MAX : Z := 2 ^ 31 - 1.

Fixpoint spaces (n : nat) : string :=
  match n with
  | O => EmptyString
  | S n' => String " " (spaces n')
  end.

(** The length of the longest name, 0 when there is none. *)
Definition longest (plugins : list screenshot_plugin) : Z :=
  fold_right (fun plugin m => Z.max (strlen (Plugin.name plugin)) m) 0 plugins.

(** The name right-aligned in [width] columns, three spaces, the
    description. *)
Definition listing_row (width : Z) (plugin : screenshot_plugin) : string :=
  (spaces (Z.to_nat (width - strlen (Plugin.name plugin)))
   ++ Plugin.name plugin ++ "   " ++ Plugin.description plugin ++ nl)%string.

Definition listing_header (indent : Z) : string :=
  (spaces (Z.to_nat indent) ++ "Name   Description" ++ nl)%string.

Definition listing (plugins : list screenshot_plugin) : string :=
  let width := longest plugins in
  (listing_header (Z.max 0 (width - 4))
   ++ String.concat "" (map (listing_row width) plugins))%string.

(** The number of space characters that a text starts with. *)
Fixpoint leading_spaces (s : string) : nat :=
  match s with
  | String c s' => if Ascii.eqb c " " then S (leading_spaces s') else O
  | EmptyString => O
  end.

(** ** Further vocabulary for the properties *)

(** What a buffer holds from index [n] on. *)
Fixpoint buffer_tail (n : nat) (buf : string) : string :=
  match n, buf with
  | O, _ => buf
  | S _, EmptyString => EmptyString
  | S n', String _ buf' => buffer_tail n' buf'
  end.

(** A NUL stands in the first [size] bytes of the buffer. *)
Definition terminated (buf : string) (size : Z) : Prop :=
  exists k : nat, Z.of_nat k < size /\ buffer_get buf k = Some NUL.

Definition is_stdout (e : event) : bool :=
  match e with Stdout _ => true | _ => false end.

Definition is_fwrite (e : event) : bool :=
  match e with Fwrite _ _ => true | _ => false end.

Definition is_disconnect (e : event) : bool :=
  match e with Disconnect _ => true | _ => false end.

(** The trace of the Siglent handler once the image has been asked for and
    received; the handle is the one [connected] names. *)
Definition captured (W : world) (address : string) (timeout : Z)
    (tr : list event) : list event :=
  (tr ++ [Connect address 0 timeout;
          Send (connected W address timeout tr) "scdp" 4 timeout;
          Receive (connected W address timeout tr) IMAGE_SIZE_MAX timeout])%list.

(** The file name that [screenshot_file_dump] resolves. *)
Definition resolved_filename (W : world) (tr : list event) (format : string)
  : string :=
  if strlen (option_screenshot_filename W) =? 0 then
    ("screenshot_" ++ option_ip W ++ "_" ++ date_time W tr ++ "."
       ++ format)%string
  else option_screenshot_filename W.

(** The file name needs no more than the array that holds it: the user's
    name is used as it is, the automatic one is built in
    [automatic_filename[1000]] from a text built in
    [date_time_string[50]]. *)
Definition filename_fits (W : world) (tr : list event) (format : string)
  : Prop :=
  option_screenshot_filename W <> ""
  \/ (strlen (date_time W tr) + 1 <= 50
      /\ strlen (resolved_filename W tr format) + 1 <= 1000).

(** The names of the registered descriptors have lengths that an [int]
    holds. *)
Definition names_fit_int (plugin_list : plugin_table) : Prop :=
  forall j plugin, In (j, plugin) (registered plugin_list) ->
                   strlen (Plugin.name plugin) <= INT_MAX.

(** The first descriptor of a registration sequence that has a given
    name. *)
Definition find_by_name (plugins : list screenshot_plugin)
    (plugin_name : string) : option screenshot_plugin :=
  List.find (fun plugin => strcmp_eq (Plugin.name plugin) plugin_name) plugins.

(** *** date_time

    [struct tm] as [localtime] fills it, and the text that
    [sprintf(date_time_string, "%d-%02d-%02d_%02d:%02d:%02d", ...)] builds
    from it. *)

Record tm : Type := {
  tm_sec : Z;
  tm_min : Z;
  tm_hour : Z;
  tm_mday : Z;
  tm_mon : Z;
  tm_year : Z
}.

Definition digit (n : Z) : ascii := Ascii.ascii_of_nat (48 + Z.to_nat n).

(** The decimal digits of a non-negative number, most significant first,
    put before [acc].  An [int] has at most 10 digits. *)
Fixpoint decimal (fuel : nat) (n : Z) (acc : string) : string :=
  match fuel with
  | O => acc
  | S fuel' =>
      let acc' := String (digit (n mod 10)) acc in
      if n / 10 =? 0 then acc' else decimal fuel' (n / 10) acc'
  end.

(** The conversion "%d". *)
Definition format_d (n : Z) : string :=
  if n <? 0 then String "-" (decimal 10 (- n) EmptyString)
  else decimal 10 n EmptyString.

(** The conversion "%02d": padded with zeros to two characters. *)
Definition format_02d (n : Z) : string :=
  if (0 <=? n) && (n <? 10) then String "0" (format_d n) else format_d n.

Definition date_time_text (t : tm) : string :=
  (format_d (tm_year t + 1900) ++ "-" ++ format_02d (tm_mon t + 1) ++ "-"
   ++ format_02d (tm_mday t) ++ "_" ++ format_02d (tm_hour t) ++ ":"
   ++ format_02d (tm_min t) ++ ":" ++ format_02d (tm_sec t))%string.

(** The fields of a calendar time of the years 1000 to 9999. *)
Definition calendar (t : tm) : Prop :=
  0 <= tm_sec t <= 60 /\ 0 <= tm_min t <= 59 /\ 0 <= tm_hour t <= 23
  /\ 1 <= tm_mday t <= 31 /\ 0 <= tm_mon t <= 11
  /\ 1000 <= tm_year t + 1900 <= 9999.

(** * Properties *)

Local Open Scope list_scope.

(** ** strtok and the fragments of a pattern string *)

Lemma fragments_from_ext (f g : ascii -> bool) :
  (forall c, f c = g c) ->
  forall s cur, fragments_from f s cur = fragments_from g s cur.
Proof.
  intros Hfg s. induction s as [|c s IH]; intros cur; simpl.
  - reflexivity.
  - rewrite Hfg. destruct (g c); rewrite IH; reflexivity.
Qed.

Lemma string_app_assoc (a b c : string) :
  ((a ++ b) ++ c = a ++ (b ++ c))%string.
Proof. induction a as [|x a IH]; simpl; [reflexivity | now rewrite IH]. Qed.

Lemma string_app_nil_r (a : string) : (a ++ "" = a)%string.
Proof. induction a as [|x a IH]; simpl; [reflexivity | now rewrite IH]. Qed.

(** A token cut by [strtok] is the first fragment of what was scanned. *)
Lemma cut_token_fragments (delim : string) (s cur : string) :
  fragments_from (is_delim delim) s cur
  = (emit (cur ++ fst (cut_token delim s))%string
     ++ fragments_from (is_delim delim) (snd (cut_token delim s)) "")%list.
Proof.
  revert cur. induction s as [|c s IH]; intros cur; simpl.
  - rewrite string_app_nil_r, app_nil_r. reflexivity.
  - destruct (is_delim delim c); simpl.
    + rewrite string_app_nil_r. reflexivity.
    + rewrite IH. destruct (cut_token delim s) as [tok rest]; simpl.
      rewrite string_app_assoc. reflexivity.
Qed.

Lemma skip_delims_fragments (delim : string) (s : string) :
  fragments_from (is_delim delim) s ""
  = fragments_from (is_delim delim) (skip_delims delim s) "".
Proof.
  induction s as [|c s IH]; simpl; [reflexivity|].
  destruct (is_delim delim c) eqn:E; simpl.
  - exact IH.
  - rewrite E. reflexivity.
Qed.

Lemma skip_delims_length (delim s : string) :
  (String.length (skip_delims delim s) <= String.length s)%nat.
Proof.
  induction s as [|c s IH]; simpl; [lia|].
  destruct (is_delim delim c); simpl; lia.
Qed.

Lemma cut_token_length (delim s : string) :
  (String.length (snd (cut_token delim s)) <= Nat.pred (String.length s))%nat.
Proof.
  induction s as [|c s IH]; simpl; [lia|].
  destruct (is_delim delim c); simpl; [lia|].
  destruct (cut_token delim s) as [tok rest]; simpl in *. lia.
Qed.

(** What one call of [strtok] does to the fragments still to come. *)
Lemma strtok_fragments (delim : string) (str : option string) (save : string) :
  let s := match str with Some s => s | None => save end in
  match strtok str delim save with
  | (None, _) => fragments (is_delim delim) s = []
  | (Some tok, save') =>
      fragments (is_delim delim) s = tok :: fragments (is_delim delim) save'
      /\ (String.length save' < String.length s)%nat
  end.
Proof.
  intros s. unfold strtok. fold s. unfold fragments.
  rewrite (skip_delims_fragments delim s).
  pose proof (skip_delims_length delim s) as Hlen.
  destruct (skip_delims delim s) as [|c s1] eqn:Es; [reflexivity|].
  assert (Hc : is_delim delim c = false).
  { clear Hlen. induction s as [|d s IH]; simpl in Es; [discriminate|].
    destruct (is_delim delim d) eqn:Ed; [auto|]. now inversion Es; subst. }
  rewrite cut_token_fragments.
  pose proof (cut_token_length delim (String c s1)) as Hcut.
  destruct (cut_token delim (String c s1)) as [tok rest] eqn:Ec.
  simpl in Ec. rewrite Hc in Ec.
  destruct (cut_token delim s1) as [tok1 rest1]. inversion Ec; subst.
  simpl in *. split; [reflexivity | lia].
Qed.

Lemma fragments_from_length (sep : ascii -> bool) (s cur : string) :
  (List.length (fragments_from sep s cur)
   <= String.length s + List.length (emit cur))%nat.
Proof.
  revert cur. induction s as [|c s IH]; intros cur; simpl; [lia|].
  destruct (sep c).
  - rewrite length_app. specialize (IH ""). simpl in IH. lia.
  - specialize (IH (cur ++ String c "")%string).
    assert (List.length (emit (cur ++ String c "")%string) <= 1)%nat
      by (destruct (cur ++ String c "")%string; simpl; lia).
    lia.
Qed.

Section MatcherFacts.

Context {regex_t : Type}.
Variable regcomp : string -> option regex_t.
Variable regexec : regex_t -> string -> bool.

Local Abbreviation hits := (matching regcomp regexec).

Lemma matching_cons id tok l :
  hits id (tok :: l)
  = (if regex_match regcomp regexec id tok then 1 else 0) + hits id l.
Proof.
  unfold matching. simpl.
  destruct (regex_match regcomp regexec id tok); simpl; lia.
Qed.

Lemma matching_app id l1 l2 :
  hits id (l1 ++ l2) = hits id l1 + hits id l2.
Proof.
  unfold matching. rewrite List.filter_app, List.length_app. lia.
Qed.

Lemma matching_bounds id l :
  0 <= hits id l <= Z.of_nat (List.length l).
Proof.
  unfold matching. pose proof (List.filter_length_le
    (regex_match regcomp regexec id) l). lia.
Qed.

Lemma matching_perm id l1 l2 :
  Permutation l1 l2 -> hits id l1 = hits id l2.
Proof.
  intros HP. induction HP.
  - reflexivity.
  - rewrite !matching_cons. lia.
  - rewrite !matching_cons. lia.
  - congruence.
Qed.

(** The walk, once it has enough fuel for the text it still has to scan,
    stops and has counted the matching fragments of that text. *)
Lemma regex_walk_fragments id fuel regex_buffer token save match_count :
  let s := match token with None => regex_buffer | Some _ => save end in
  (String.length s < fuel)%nat ->
  regex_walk regcomp regexec id fuel regex_buffer token save match_count
  = Some (match_count + hits id (fragments (is_delim " ") s)).
Proof.
  revert token save match_count.
  induction fuel as [|fuel IH]; intros token save match_count s Hlen.
  - lia.
  - simpl.
    pose proof (strtok_fragments " "
      (match token with None => Some regex_buffer | Some _ => None end)
      save) as Hs.
    assert (Hsrc : match match token with
                         | None => Some regex_buffer
                         | Some _ => None
                         end with Some s0 => s0 | None => save end = s)
      by (subst s; destruct token; reflexivity).
    simpl in Hs. rewrite Hsrc in Hs.
    assert (Hcall : match token with
                    | None => strtok (Some regex_buffer) " " save
                    | Some _ => strtok None " " save
                    end
                    = strtok (match token with
                              | None => Some regex_buffer
                              | Some _ => None
                              end) " " save)
      by (destruct token; reflexivity).
    rewrite Hcall.
    destruct (strtok _ " " save) as [[tok|] save'].
    + destruct Hs as [Hfr Hlt]. rewrite IH by (simpl; lia).
      simpl. rewrite Hfr, matching_cons.
      destruct (regex_match regcomp regexec id tok); f_equal; lia.
    + rewrite Hs. unfold matching. simpl. f_equal. lia.
Qed.

Lemma space_fragments_delim s : fragments (is_delim " ") s = space_fragments s.
Proof.
  unfold space_fragments, fragments. apply fragments_from_ext.
  intros c. simpl. apply orb_false_r.
Qed.

(** The token walk of [screenshot] always ends: any fuel above the length
    of the pattern string gives the count. *)
Lemma regex_walk_enough_fuel id regex fuel :
  (String.length regex < fuel)%nat ->
  regex_walk regcomp regexec id fuel regex None "" 0
  = Some (count_matches regcomp regexec id regex).
Proof.
  intros Hlen. unfold count_matches.
  rewrite !regex_walk_fragments by (simpl; lia). reflexivity.
Qed.

Lemma count_matches_matching id regex :
  count_matches regcomp regexec id regex
  = hits id (space_fragments regex).
Proof.
  unfold count_matches.
  rewrite regex_walk_fragments by (simpl; lia).
  simpl. now rewrite space_fragments_delim.
Qed.

(** The count never exceeds the length of the pattern string, so that it
    fits the [int] that holds it. *)
Lemma count_matches_bounds id regex :
  0 <= count_matches regcomp regexec id regex <= strlen regex.
Proof.
  rewrite count_matches_matching.
  pose proof (matching_bounds id (space_fragments regex)) as Hb.
  pose proof (fragments_from_length (fun c => Ascii.eqb c " ") regex "") as Hl.
  unfold space_fragments, fragments, strlen in *. simpl in Hl. lia.
Qed.

End MatcherFacts.

(** ** The scan of the plugin table *)

Lemma scan_lookup plugin_list n i k j plugin :
  scan plugin_list n i !! k = Some (j, plugin) ->
  j = i + Z.of_nat k /\ slot plugin_list j = Some plugin /\ (k < n)%nat.
Proof.
  revert i k. induction n as [|n IH]; intros i k; simpl; [discriminate|].
  destruct (slot plugin_list i) as [p|] eqn:Ei; [|discriminate].
  destruct k as [|k]; simpl.
  - intros [= <- <-]. repeat split; [lia | assumption | lia].
  - intros Hk. apply IH in Hk as (-> & Hs & Hlt).
    repeat split; [lia | assumption | lia].
Qed.

Lemma scan_In plugin_list n i j plugin :
  In (j, plugin) (scan plugin_list n i) ->
  i <= j < i + Z.of_nat n /\ slot plugin_list j = Some plugin.
Proof.
  intros Hin. apply list_elem_of_In, list_elem_of_lookup in Hin as [k Hk].
  apply scan_lookup in Hk as (-> & Hs & Hlt). split; [lia | assumption].
Qed.

(** The scan lists its entries by increasing index: an entry whose index is
    below the one in the middle of a split lies in the left part. *)
Lemma scan_split_before plugin_list n i l1 w p l2 j q :
  scan plugin_list n i = l1 ++ (w, p) :: l2 ->
  In (j, q) (scan plugin_list n i) -> j < w -> In (j, q) l1.
Proof.
  intros Hsplit Hin Hlt.
  assert (Hw : w = i + Z.of_nat (List.length l1)).
  { eapply (scan_lookup plugin_list n i (List.length l1) w p).
    rewrite Hsplit. rewrite list_lookup_middle; reflexivity. }
  apply list_elem_of_In, list_elem_of_lookup in Hin as [k Hk].
  pose proof Hk as Hk'. apply scan_lookup in Hk' as (Hj & _ & _).
  rewrite Hsplit in Hk. rewrite lookup_app_l in Hk by lia.
  apply list_elem_of_In, list_elem_of_lookup. eauto.
Qed.

Lemma scan_split_after plugin_list n i l1 w p l2 j q :
  scan plugin_list n i = l1 ++ (w, p) :: l2 -> In (j, q) l2 -> w < j.
Proof.
  intros Hsplit Hin.
  assert (Hw : w = i + Z.of_nat (List.length l1)).
  { eapply (scan_lookup plugin_list n i (List.length l1) w p).
    rewrite Hsplit. rewrite list_lookup_middle; reflexivity. }
  apply list_elem_of_In, list_elem_of_lookup in Hin as [k Hk].
  assert (Hk' : scan plugin_list n i !! (List.length l1 + S k)%nat
                = Some (j, q)).
  { rewrite Hsplit. rewrite lookup_app_r by lia.
    replace (List.length l1 + S k - List.length l1)%nat with (S k) by lia.
    exact Hk. }
  apply scan_lookup in Hk' as (-> & _ & _). lia.
Qed.

(** Two entries of a scan with the same index are the same descriptor. *)
Lemma scan_functional plugin_list n i j p q :
  In (j, p) (scan plugin_list n i) -> In (j, q) (scan plugin_list n i) -> p = q.
Proof.
  intros Hp Hq. apply scan_In in Hp as [_ Hp]. apply scan_In in Hq as [_ Hq].
  congruence.
Qed.

(** ** Registration *)

Lemma slot_table_of (plugins : list screenshot_plugin) (k : nat) :
  slot (table_of plugins) (Z.of_nat k) = plugins !! k.
Proof.
  unfold slot, table_of. rewrite Nat2Z.id.
  destruct (plugins !! k) as [plugin|] eqn:Ek.
  - rewrite lookup_app_l
      by (rewrite length_fmap; now apply lookup_lt_Some in Ek).
    now rewrite list_lookup_fmap, Ek.
  - apply lookup_ge_None in Ek.
    rewrite lookup_app_r by (rewrite length_fmap; lia).
    destruct (replicate _ None !! _) as [[plugin|]|] eqn:Er; [|reflexivity..].
    apply lookup_replicate in Er as [? _]. discriminate.
Qed.

Lemma first_free_table_of (plugins : list screenshot_plugin) (n k : nat) :
  (k <= List.length plugins)%nat ->
  first_free (table_of plugins) n (Z.of_nat k)
  = Z.of_nat (Nat.min (List.length plugins) (k + n)).
Proof.
  revert k. induction n as [|n IH]; intros k Hk; simpl.
  - lia.
  - rewrite slot_table_of. destruct (plugins !! k) as [plugin|] eqn:Ek.
    + apply lookup_lt_Some in Ek.
      replace (Z.of_nat k + 1) with (Z.of_nat (S k)) by lia.
      rewrite IH by lia. lia.
    + apply lookup_ge_None in Ek. lia.
Qed.

Lemma scan_table_of (plugins : list screenshot_plugin) (n k : nat) :
  scan (table_of plugins) n (Z.of_nat k)
  = number_from (Z.of_nat k) (take n (drop k plugins)).
Proof.
  revert k. induction n as [|n IH]; intros k; simpl.
  - reflexivity.
  - rewrite slot_table_of. destruct (plugins !! k) as [plugin|] eqn:Ek.
    + rewrite (drop_S _ _ _ Ek). simpl.
      replace (Z.of_nat k + 1) with (Z.of_nat (S k)) by lia.
      now rewrite IH.
    + apply lookup_ge_None in Ek. now rewrite drop_ge by lia.
Qed.

(** Registering a descriptor in a table that is not full appends it to the
    registry; the table and the trace are otherwise unchanged. *)
Lemma register_table_of (plugins : list screenshot_plugin)
    (plugin : screenshot_plugin) (tr : list event) :
  (List.length plugins < Z.to_nat PLUGIN_LIST_SIZE_MAX)%nat ->
  screenshot_plugin_register (table_of plugins) plugin tr
  = (Returns (table_of (plugins ++ [plugin])), tr).
Proof.
  intros Hlen. unfold screenshot_plugin_register.
  rewrite (first_free_table_of plugins _ 0) by lia.
  rewrite Nat.min_l by lia.
  destruct (Z.of_nat (List.length plugins) >=? PLUGIN_LIST_SIZE_MAX) eqn:E;
    [unfold PLUGIN_LIST_SIZE_MAX in *; lia|].
  unfold ret. f_equal. f_equal. rewrite Nat2Z.id. unfold table_of.
  rewrite insert_app_r_alt by (rewrite length_fmap; lia).
  rewrite length_fmap, Nat.sub_diag, fmap_app, <- app_assoc, length_app.
  simpl List.length.
  destruct (Z.to_nat PLUGIN_LIST_SIZE_MAX - List.length plugins)%nat
    as [|m] eqn:Em; [lia|].
  replace (Z.to_nat PLUGIN_LIST_SIZE_MAX - (List.length plugins + 1))%nat
    with m by lia.
  reflexivity.
Qed.

(** The descriptors that the loops visit are the registered ones, in
    registration order. *)
Lemma registration_order (plugins : list screenshot_plugin) (tr : list event) :
  (List.length plugins <= Z.to_nat PLUGIN_LIST_SIZE_MAX)%nat ->
  register_all empty_plugin_list plugins tr = (Returns (table_of plugins), tr)
  /\ registered (table_of plugins) = number_from 0 plugins.
Proof.
  intros Hlen. split.
  - change empty_plugin_list with (table_of []).
    assert (Hgen : forall done todo,
               (List.length (done ++ todo) <= Z.to_nat PLUGIN_LIST_SIZE_MAX)%nat ->
               register_all (table_of done) todo tr
               = (Returns (table_of (done ++ todo)), tr)).
    { intros done todo. revert done.
      induction todo as [|p todo IH]; intros done Hd; simpl.
      - now rewrite app_nil_r.
      - unfold bind. rewrite length_app in Hd. simpl in Hd.
        rewrite register_table_of by lia.
        rewrite IH
          by (rewrite <- app_assoc; simpl; rewrite length_app; simpl; lia).
        now rewrite <- app_assoc. }
    now apply (Hgen [] plugins).
  - unfold registered. rewrite (scan_table_of plugins _ 0).
    now rewrite drop_0, take_ge by lia.
Qed.

Section Selection.

Context {regex_t : Type}.
Variable regcomp : string -> option regex_t.
Variable regexec : regex_t -> string -> bool.

Local Abbreviation points := (score regcomp regexec).
Local Abbreviation detect := (detect_loop regcomp regexec).

Lemma score_nonneg id plugin : 0 <= points id plugin.
Proof.
  unfold score. destruct (Plugin.regex plugin); [|lia].
  rewrite count_matches_matching. apply matching_bounds.
Qed.

(** One turn of the autodetection loop over a descriptor: the winner
    changes exactly when the descriptor's score is strictly greater than
    the running best. *)
Lemma detect_loop_turn plugin_list id n i plugin_winner match_count_max plugin :
  slot plugin_list i = Some plugin -> 0 <= match_count_max ->
  detect plugin_list id (S n) i plugin_winner match_count_max
  = if match_count_max <? points id plugin
    then detect plugin_list id n (i + 1) i (points id plugin)
    else detect plugin_list id n (i + 1) plugin_winner match_count_max.
Proof.
  intros Hs Hm. simpl. rewrite Hs. unfold score.
  destruct (Plugin.regex plugin); [reflexivity|].
  destruct (match_count_max <? 0) eqn:E; [lia | reflexivity].
Qed.

(** What the loop returns, stated on the entries it scans. *)
Lemma detect_loop_scan plugin_list id n i w m :
  0 <= m ->
  let r := detect plugin_list id n i w m in
  (r = (w, m)
   /\ Forall (fun e => points id e.2 <= m) (scan plugin_list n i))
  \/ (exists l1 p l2,
        scan plugin_list n i = l1 ++ (fst r, p) :: l2
        /\ points id p = snd r /\ m < snd r
        /\ Forall (fun e => points id e.2 < snd r) l1
        /\ Forall (fun e => points id e.2 <= snd r) l2).
Proof.
  revert i w m. induction n as [|n IH]; intros i w m Hm.
  - left. split; [reflexivity | constructor].
  - destruct (slot plugin_list i) as [plugin|] eqn:Es.
    2:{ left. simpl. rewrite Es. split; [reflexivity | constructor]. }
    cbv zeta. rewrite (detect_loop_turn _ _ _ _ _ _ _ Es Hm).
    simpl scan. rewrite Es.
    pose proof (score_nonneg id plugin) as Hp.
    destruct (m <? points id plugin) eqn:E.
    + apply Z.ltb_lt in E.
      destruct (IH (i + 1) i (points id plugin) Hp) as [[Hr Hall]|Hch].
      * right. exists [], plugin, (scan plugin_list n (i + 1)).
        rewrite Hr. simpl. repeat split; auto.
      * destruct Hch as (l1 & p & l2 & Hsplit & Hsc & Hlt & H1 & H2).
        right. exists ((i, plugin) :: l1), p, l2.
        rewrite Hsplit. split; [reflexivity|]. split; [assumption|].
        split; [lia|]. split; [|assumption].
        constructor; [simpl; lia | assumption].
    + apply Z.ltb_ge in E.
      destruct (IH (i + 1) w m Hm) as [[Hr Hall]|Hch].
      * left. split; [assumption|]. constructor; [simpl; lia | assumption].
      * destruct Hch as (l1 & p & l2 & Hsplit & Hsc & Hlt & H1 & H2).
        right. exists ((i, plugin) :: l1), p, l2.
        rewrite Hsplit. split; [reflexivity|]. split; [assumption|].
        split; [lia|]. split; [|assumption].
        constructor; [simpl; lia | assumption].
Qed.

(** Autodetection returns -1 when every registered descriptor scores 0,
    and else the lowest index among the descriptors of highest score. *)
Lemma autodetect_spec plugin_list id :
  let w := autodetect regcomp regexec plugin_list id in
  (w = -1
   /\ forall j q, In (j, q) (registered plugin_list) -> points id q = 0)
  \/ (exists p,
        In (w, p) (registered plugin_list) /\ 0 < points id p
        /\ forall j q, In (j, q) (registered plugin_list) ->
             points id q <= points id p
             /\ (j < w -> points id q < points id p)).
Proof.
  unfold autodetect, registered.
  generalize (Z.to_nat PLUGIN_LIST_SIZE_MAX); intros n.
  destruct (detect_loop_scan plugin_list id n 0 (-1) 0 ltac:(lia))
    as [[Hr Hall]|(l1 & p & l2 & Hsplit & Hsc & Hlt & H1 & H2)].
  - left. rewrite Hr. split; [reflexivity|].
    intros j q Hin. rewrite List.Forall_forall in Hall.
    specialize (Hall _ Hin). simpl in Hall.
    pose proof (score_nonneg id q). lia.
  - right. exists p. rewrite Hsplit at 1.
    split; [apply List.in_elt|]. split; [lia|].
    intros j q Hin. rewrite List.Forall_forall in H1, H2. split.
    + rewrite Hsplit in Hin. apply List.in_app_or in Hin as [Hin|[Heq|Hin]].
      * specialize (H1 _ Hin). simpl in H1. lia.
      * inversion Heq; subst. lia.
      * specialize (H2 _ Hin). simpl in H2. lia.
    + intros Hjw.
      pose proof (scan_split_before _ _ _ _ _ _ _ _ _ Hsplit Hin Hjw) as Hin1.
      specialize (H1 _ Hin1). simpl in H1. lia.
Qed.

End Selection.

(** ** Autodetection: the winner *)

(** C1.  In autodetect mode the descriptors are scanned in registration
    order (by increasing index), and a turn of the loop makes the scanned
    descriptor the winner exactly when its score is strictly greater than
    the running best.  Hence a descriptor of score 0 is never selected, and
    the selected descriptor has a positive score that no registered
    descriptor exceeds and that every descriptor registered before it stays
    strictly below: of two descriptors with the same positive score, only
    the earlier can be selected.  Conversely a descriptor of positive score
    that no registered descriptor exceeds and that every earlier one stays
    strictly below is the one selected, so the earlier of two descriptors
    sharing the highest positive score is selected; and as soon as one
    registered descriptor has a positive score, some descriptor is
    selected. *)
Theorem autodetect_first_strict_maximum {regex_t : Type}
    (regcomp : string -> option regex_t) (regexec : regex_t -> string -> bool)
    (plugin_list : plugin_table) (id : string) (j : Z) (q : screenshot_plugin) :
  In (j, q) (registered plugin_list) ->
  let w := autodetect regcomp regexec plugin_list id in
  let score := score regcomp regexec id in
  (forall n plugin_winner match_count_max,
      0 <= match_count_max ->
      detect_loop regcomp regexec plugin_list id (S n) j
        plugin_winner match_count_max
      = if match_count_max <? score q
        then detect_loop regcomp regexec plugin_list id n (j + 1) j (score q)
        else detect_loop regcomp regexec plugin_list id n (j + 1)
               plugin_winner match_count_max)
  /\ (score q = 0 -> w <> j)
  /\ (w = j ->
      0 < score q
      /\ forall j' q', In (j', q') (registered plugin_list) ->
           score q' <= score q /\ (j' < j -> score q' < score q))
  /\ (forall j' q', In (j', q') (registered plugin_list) ->
        j' < j -> score q' = score q -> w <> j)
  /\ (w = -1 \/ exists p, In (w, p) (registered plugin_list))
  /\ (0 < score q ->
      (forall j' q', In (j', q') (registered plugin_list) ->
         score q' <= score q /\ (j' < j -> score q' < score q)) ->
      w = j)
  /\ (0 < score q -> w <> -1).
Proof.
  intros Hin w sc. subst w sc.
  set (w := autodetect regcomp regexec plugin_list id).
  set (sc := score regcomp regexec id).
  pose proof (scan_In _ _ _ _ _ Hin) as [Hj Hslot].
  pose proof (autodetect_spec regcomp regexec plugin_list id) as Hspec.
  cbv zeta in Hspec. fold w sc in Hspec.
  assert (Hwin : w = j ->
            0 < sc q
            /\ forall j' q', In (j', q') (registered plugin_list) ->
                 sc q' <= sc q /\ (j' < j -> sc q' < sc q)).
  { intros Hw. destruct Hspec as [[Hnone _]|(p & Hp & Hpos & Hmax)].
    - lia.
    - rewrite Hw in Hp, Hmax.
      rewrite (scan_functional _ _ _ _ _ _ Hin Hp).
      split; [assumption|]. intros j' q' Hin'. now apply Hmax. }
  split; [|split; [|split; [|split; [|split; [|split]]]]].
  - intros n plugin_winner match_count_max Hm.
    now apply detect_loop_turn.
  - intros Hzero Hw. apply Hwin in Hw as [Hpos _]. lia.
  - exact Hwin.
  - intros j' q' Hin' Hlt Heq Hw. apply Hwin in Hw as [_ Hmax].
    destruct (Hmax j' q' Hin') as [_ Hstrict]. specialize (Hstrict Hlt). lia.
  - destruct Hspec as [[Hnone _]|(p & Hp & _)]; [now left | right; eauto].
  - intros Hpos Hbest.
    destruct Hspec as [[_ Hzero]|(p & Hp & _ & Hmax)].
    + specialize (Hzero j q Hin). lia.
    + destruct (Hbest w p Hp) as [Hle Hearlier].
      destruct (Hmax j q Hin) as [Hge Hlater].
      destruct (Z.lt_trichotomy w j) as [Hlt|[Heq|Hgt]].
      * specialize (Hearlier Hlt). lia.
      * exact Heq.
      * specialize (Hlater Hgt). lia.
  - intros Hpos Hw.
    destruct Hspec as [[_ Hzero]|(p & Hp & _)].
    + specialize (Hzero j q Hin). lia.
    + rewrite Hw in Hp. apply scan_In in Hp as [Hneg _]. lia.
Qed.

Lemma autodetect_first_strict_maximum_witness :
  In (0, Bench.foo) (registered Bench.twins)
  /\ 0 < score Literal.regcomp Literal.regexec "FOO" Bench.foo
  /\ score Literal.regcomp Literal.regexec "FOO" Bench.twin
     = score Literal.regcomp Literal.regexec "FOO" Bench.foo
  /\ autodetect Literal.regcomp Literal.regexec Bench.twins "FOO" <> 1
  /\ autodetect Literal.regcomp Literal.regexec Bench.twins "FOO" = 0.
Proof.
  assert (H0 : In (0, Bench.foo) (registered Bench.twins))
    by (vm_compute; auto).
  assert (H1 : In (1, Bench.twin) (registered Bench.twins))
    by (vm_compute; auto).
  split; [exact H0|]. split; [|split; [|split]].
  - apply (autodetect_first_strict_maximum Literal.regcomp Literal.regexec
             Bench.twins "FOO" 0 Bench.foo H0).
    vm_compute. reflexivity.
  - vm_compute. reflexivity.
  - apply (proj1 (proj2 (proj2 (proj2
             (autodetect_first_strict_maximum Literal.regcomp Literal.regexec
                Bench.twins "FOO" 1 Bench.twin H1)))) 0 Bench.foo H0).
    + lia.
    + vm_compute. reflexivity.
  - apply (proj1 (proj2 (proj2 (proj2 (proj2 (proj2
             (autodetect_first_strict_maximum Literal.regcomp Literal.regexec
                Bench.twins "FOO" 0 Bench.foo H0))))))).
    + vm_compute. reflexivity.
    + intros j' q' Hin'. vm_compute in Hin'.
      repeat (destruct Hin' as [Heq|Hin'];
        [inversion Heq; subst; clear Heq;
         split; [vm_compute; discriminate | lia]|]).
      destruct Hin'.
Defined.

(** C5.  A descriptor whose pattern is absent scores 0 against every
    identity string, and autodetection never selects it. *)
Theorem absent_pattern_never_selected {regex_t : Type}
    (regcomp : string -> option regex_t) (regexec : regex_t -> string -> bool)
    (plugin_list : plugin_table) (id : string) (j : Z) (q : screenshot_plugin) :
  0 <= j -> slot plugin_list j = Some q -> Plugin.regex q = None ->
  score regcomp regexec id q = 0
  /\ autodetect regcomp regexec plugin_list id <> j.
Proof.
  intros Hj Hslot Hregex.
  assert (Hzero : score regcomp regexec id q = 0)
    by (unfold score; now rewrite Hregex).
  split; [assumption|]. intros Hw.
  destruct (autodetect_spec regcomp regexec plugin_list id)
    as [[Hnone _]|(p & Hp & Hpos & _)].
  - lia.
  - apply scan_In in Hp as [_ Hp]. rewrite Hw in Hp.
    assert (p = q) by congruence. subst p. lia.
Qed.

Lemma absent_pattern_never_selected_witness :
  score Literal.regcomp Literal.regexec "FOO BAR BAZ" Bench.silent = 0
  /\ autodetect Literal.regcomp Literal.regexec Bench.family "FOO BAR BAZ"
     <> 2.
Proof.
  apply absent_pattern_never_selected; [lia | reflexivity | reflexivity].
Defined.

(** ** The score of a pattern string *)

(** C2, as amended.  The score of a descriptor with a pattern is the number
    of fragments of the pattern string, separated by the space character,
    that match the identity string; pattern strings whose fragments are a
    permutation of one another have the same score.  (A tab or a newline
    does not separate fragments.)  The walk over the pattern string ends
    within as many turns as the string has characters, plus one. *)
Theorem count_matches_space_fragments {regex_t : Type}
    (regcomp : string -> option regex_t) (regexec : regex_t -> string -> bool)
    (id regex : string) :
  count_matches regcomp regexec id regex
  = Z.of_nat (List.length (List.filter (regex_match regcomp regexec id)
                             (space_fragments regex)))
  /\ (forall regex',
        Permutation (space_fragments regex') (space_fragments regex) ->
        count_matches regcomp regexec id regex'
        = count_matches regcomp regexec id regex)
  /\ (forall fuel, (String.length regex < fuel)%nat ->
        regex_walk regcomp regexec id fuel regex None "" 0
        = Some (count_matches regcomp regexec id regex)).
Proof.
  split; [|split].
  - apply count_matches_matching.
  - intros regex' Hperm. rewrite !count_matches_matching.
    now apply matching_perm.
  - intros fuel Hfuel. now apply regex_walk_enough_fuel.
Qed.

Lemma count_matches_space_fragments_witness :
  count_matches Literal.regcomp Literal.regexec "FOO BAR BAZ" "FOO BAR" = 2
  /\ count_matches Literal.regcomp Literal.regexec "FOO BAR BAZ" "BAR  FOO"
     = count_matches Literal.regcomp Literal.regexec "FOO BAR BAZ" "FOO BAR".
Proof.
  destruct (count_matches_space_fragments Literal.regcomp Literal.regexec
              "FOO BAR BAZ" "FOO BAR") as (Hcount & Hperm & _).
  split; [rewrite Hcount; reflexivity|].
  apply Hperm. vm_compute. apply perm_swap.
Defined.

(** The claim as written reads the fragments as separated by whitespace.
    The pattern string "A\tB" holds one fragment for [strtok], which does
    not match the identity "A"; its two whitespace-separated fragments are
    "A", which matches, and "B". *)
Lemma count_matches_whitespace_counterexample :
  count_matches Literal.regcomp Literal.regexec "A" Bench.tabbed
  <> Z.of_nat (List.length
                 (List.filter (regex_match Literal.regcomp Literal.regexec "A")
                    (whitespace_fragments Bench.tabbed))).
Proof. vm_compute. discriminate. Qed.

(** C4.  A fragment that [regcomp] rejects matches no identity string, and
    the walk goes on: the fragments before and after it are counted as if
    it were not there, and the scan of the table continues with the next
    descriptor. *)
Theorem malformed_fragment_never_matches {regex_t : Type}
    (regcomp : string -> option regex_t) (regexec : regex_t -> string -> bool)
    (bad : string) :
  regcomp bad = None ->
  (forall id, regex_match regcomp regexec id bad = false)
  /\ (forall id regex l1 l2,
        space_fragments regex = l1 ++ bad :: l2 ->
        count_matches regcomp regexec id regex
        = Z.of_nat (List.length (List.filter (regex_match regcomp regexec id)
                                   (l1 ++ l2)))
        /\ forall fuel, (String.length regex < fuel)%nat ->
             regex_walk regcomp regexec id fuel regex None "" 0
             = Some (count_matches regcomp regexec id regex))
  /\ (forall id plugin_list n i plugin_winner match_count_max plugin regex,
        slot plugin_list i = Some plugin ->
        Plugin.regex plugin = Some regex ->
        space_fragments regex = [bad] ->
        0 <= match_count_max ->
        detect_loop regcomp regexec plugin_list id (S n) i
          plugin_winner match_count_max
        = detect_loop regcomp regexec plugin_list id n (i + 1)
            plugin_winner match_count_max).
Proof.
  intros Hbad.
  assert (Hno : forall id, regex_match regcomp regexec id bad = false)
    by (intros id; unfold regex_match; now rewrite Hbad).
  split; [exact Hno|]. split.
  - intros id regex l1 l2 Hfr. split.
    + rewrite count_matches_matching, Hfr.
      change (matching regcomp regexec id (l1 ++ bad :: l2)
              = matching regcomp regexec id (l1 ++ l2)).
      rewrite !matching_app, matching_cons, Hno. lia.
    + intros fuel Hfuel. now apply regex_walk_enough_fuel.
  - intros id plugin_list n i plugin_winner match_count_max plugin regex
      Hslot Hregex Hfr Hm.
    rewrite (detect_loop_turn regcomp regexec _ _ _ _ _ _ _ Hslot Hm).
    unfold score. rewrite Hregex, count_matches_matching, Hfr.
    rewrite matching_cons, Hno. unfold matching. simpl List.length.
    change (0 + Z.of_nat 0) with 0.
    destruct (match_count_max <? 0) eqn:E; [lia | reflexivity].
Qed.

Lemma malformed_fragment_never_matches_witness :
  regex_match Literal.regcomp Literal.regexec "FOO BAR BAZ" "(" = false
  /\ count_matches Literal.regcomp Literal.regexec "FOO BAR BAZ" "FOO ( BAR"
     = 2
  /\ detect_loop Literal.regcomp Literal.regexec
       (Bench.table [Bench.broken; Bench.foo]) "FOO" 2 0 (-1) 0
     = detect_loop Literal.regcomp Literal.regexec
         (Bench.table [Bench.broken; Bench.foo]) "FOO" 1 1 (-1) 0.
Proof.
  destruct (malformed_fragment_never_matches Literal.regcomp Literal.regexec
              "(" eq_refl) as (Hno & Hwalk & Hnext).
  split; [apply Hno|]. split.
  - destruct (Hwalk "FOO BAR BAZ" "FOO ( BAR" ["FOO"] ["BAR"] eq_refl)
      as [Hcount _].
    rewrite Hcount. reflexivity.
  - apply (Hnext "FOO" _ 1%nat 0 (-1) 0 Bench.broken "(");
      [reflexivity | reflexivity | reflexivity | lia].
Defined.

(** ** screenshot: the two selection modes *)

Lemma strlen_nonempty (s : string) : s <> "" -> (strlen s =? 0) = false.
Proof.
  intros Hs. apply Z.eqb_neq. unfold strlen.
  destruct s; [congruence | simpl; lia].
Qed.

Section Lookup.

Variable plugin_list : plugin_table.
Variable plugin_name : string.

Lemma find_loop_found n i k p :
  In (k, p) (scan plugin_list n i) ->
  Plugin.name p = plugin_name ->
  (forall j q, In (j, q) (scan plugin_list n i) -> j < k ->
               Plugin.name q <> plugin_name) ->
  find_loop plugin_list plugin_name n i = (false, k).
Proof.
  revert i. induction n as [|n IH]; intros i Hin Hname Hfirst; simpl in *.
  - contradiction.
  - destruct (slot plugin_list i) as [plugin|] eqn:Es; [|contradiction].
    destruct Hin as [Heq|Hin].
    + inversion Heq; subst. unfold strcmp_eq.
      now rewrite String.eqb_refl.
    + pose proof (scan_In _ _ _ _ _ Hin) as [Hk _].
      assert (Hne : Plugin.name plugin <> plugin_name)
        by (apply (Hfirst i); [now left | lia]).
      apply String.eqb_neq in Hne. unfold strcmp_eq. rewrite Hne.
      apply IH; auto. intros j q Hq. apply Hfirst. now right.
Qed.

Lemma find_loop_missing n i :
  (forall j q, In (j, q) (scan plugin_list n i) ->
               Plugin.name q <> plugin_name) ->
  fst (find_loop plugin_list plugin_name n i) = true.
Proof.
  revert i. induction n as [|n IH]; intros i Hall; simpl in *.
  - reflexivity.
  - destruct (slot plugin_list i) as [plugin|] eqn:Es; [|reflexivity].
    assert (Hne : Plugin.name plugin <> plugin_name)
      by (apply (Hall i); now left).
    apply String.eqb_neq in Hne. unfold strcmp_eq. rewrite Hne.
    apply IH. intros j q Hq. apply (Hall j). now right.
Qed.

End Lookup.

(** C7.  With a plugin name given, [screenshot] behaves from its first
    step as the handler of the first registered descriptor of exactly that
    name, called with the address and the timeout: nothing, and so no
    transport call, precedes it.  When no registered descriptor has that
    name it exits with [EXIT_FAILURE] after printing the unknown-plugin
    diagnostic, and the trace holds nothing else. *)
Theorem explicit_mode_lookup {regex_t : Type}
    (regcomp : string -> option regex_t) (regexec : regex_t -> string -> bool)
    (W : world) (plugin_list : plugin_table)
    (address plugin_name filename : string) (timeout : Z) (tr : list event) :
  address <> "" -> plugin_name <> "" ->
  (forall i p,
      In (i, p) (registered plugin_list) ->
      Plugin.name p = plugin_name ->
      (forall j q, In (j, q) (registered plugin_list) -> j < i ->
                   Plugin.name q <> plugin_name) ->
      screenshot regcomp regexec W plugin_list address plugin_name filename
        timeout tr
      = Plugin.screenshot p address timeout tr)
  /\ ((forall j q, In (j, q) (registered plugin_list) ->
                   Plugin.name q <> plugin_name) ->
      screenshot regcomp regexec W plugin_list address plugin_name filename
        timeout tr
      = (Exits EXIT_FAILURE,
         tr ++ [Stdout ("Error: Unknown plugin name" ++ nl)%string])
      /\ EXIT_FAILURE <> 0).
Proof.
  intros Haddr Hname. unfold screenshot, registered.
  rewrite (strlen_nonempty _ Haddr), (strlen_nonempty _ Hname).
  generalize (Z.to_nat PLUGIN_LIST_SIZE_MAX); intros n. split.
  - intros i p Hin Hp Hfirst.
    pose proof (scan_In _ _ _ _ _ Hin) as [_ Hslot].
    unfold bind, ret.
    rewrite (find_loop_found plugin_list plugin_name n 0 i p Hin Hp Hfirst).
    unfold deref. rewrite Hslot. reflexivity.
  - intros Hall. split; [|discriminate].
    pose proof (find_loop_missing plugin_list plugin_name n 0 Hall) as Hmiss.
    unfold bind, ret.
    destruct (find_loop plugin_list plugin_name n 0) as [no_match i].
    simpl in Hmiss. subst no_match. reflexivity.
Qed.

Lemma explicit_mode_lookup_witness :
  screenshot Literal.regcomp Literal.regexec (Bench.instrument None)
    Bench.family "10.0.0.42" "b" "" 5 []
  = (Returns 5, [Stdout "b"])
  /\ screenshot Literal.regcomp Literal.regexec (Bench.instrument None)
       Bench.family "10.0.0.42" "B" "" 5 []
     = (Exits 1, [Stdout ("Error: Unknown plugin name" ++ nl)%string]).
Proof.
  split.
  - apply (proj1 (explicit_mode_lookup Literal.regcomp Literal.regexec
                    (Bench.instrument None) Bench.family "10.0.0.42" "b" ""
                    5 [] ltac:(discriminate) ltac:(discriminate))
             1 Bench.foo_bar).
    + vm_compute. auto.
    + reflexivity.
    + intros j q Hin Hlt.
      vm_compute in Hin. destruct Hin as [Heq|[Heq|[Heq|[]]]];
        inversion Heq; subst; [discriminate | lia | lia].
  - apply (proj2 (explicit_mode_lookup Literal.regcomp Literal.regexec
                    (Bench.instrument None) Bench.family "10.0.0.42" "B" ""
                    5 [] ltac:(discriminate) ltac:(discriminate))).
    intros j q Hin.
    vm_compute in Hin. destruct Hin as [Heq|[Heq|[Heq|[]]]];
      inversion Heq; subst; discriminate.
Defined.



(** ** get_device_id: the timeout and the trailing newline *)

Lemma strlen_nonneg (s : string) : (strlen s <? 0) = false.
Proof. apply Z.ltb_ge. unfold strlen. lia. Qed.

Lemma string_length_snoc (body : string) (c : ascii) :
  String.length (body ++ String c "")%string = S (String.length body).
Proof. induction body as [|b body IH]; simpl; [reflexivity | now rewrite IH]. Qed.

Lemma string_snoc_cases (data : string) :
  data = "" \/ exists body c, data = (body ++ String c "")%string.
Proof.
  induction data as [|a data IH]; [now left | right].
  destruct IH as [->|(body & c & ->)].
  - now exists "", a.
  - now exists (String a body), c.
Qed.

Lemma buffer_get_last (body : string) (c : ascii) (id : string) :
  buffer_get (overwrite (body ++ String c "")%string id) (String.length body)
  = Some c.
Proof.
  revert id. induction body as [|b body IH]; intros id; simpl; [reflexivity|].
  apply IH.
Qed.

Lemma buffer_set_last (body : string) (c d : ascii) (id : string) :
  buffer_set (overwrite (body ++ String c "")%string id) (String.length body) d
  = overwrite (body ++ String d "")%string id.
Proof.
  revert id. induction body as [|b body IH]; intros id; simpl; [reflexivity|].
  now rewrite IH.
Qed.

Lemma c_string_terminated (body : string) (id : string) :
  nul_free body = true ->
  c_string (overwrite (body ++ String NUL "")%string id) = body.
Proof.
  revert id. induction body as [|b body IH]; intros id; simpl.
  - reflexivity.
  - intros H. apply andb_prop in H as [Hb Hbody].
    apply negb_true_iff in Hb. rewrite Hb. now rewrite IH.
Qed.

Section IdentityQuery.

Variable W : world.
Variables (address id : string) (timeout : Z) (tr : list event).

(** After a receive that is no error, [get_device_id] goes on to the
    statement that removes the trailing newline, with the length that was
    received. *)
Lemma get_device_id_received (data : string) :
  connected W address timeout tr <> LXI_ERROR ->
  receive_reply W (queried W address timeout tr) = Some data ->
  get_device_id W address id timeout tr
  = (id' <- remove_trailing_newline (overwrite data id) (strlen data) ;;
     ret (0, id')) (queried W address timeout tr).
Proof.
  intros Hdev Hdata. apply Z.eqb_neq in Hdev.
  unfold get_device_id, bind at 1, lxi_connect.
  fold (connected W address timeout tr).
  rewrite Hdev. unfold bind at 1, lxi_send, emit_event.
  unfold bind at 1, lxi_receive. rewrite <- !app_assoc. simpl app.
  change (strlen "*IDN?") with 5.
  fold (queried W address timeout tr).
  rewrite Hdata, strlen_nonneg. reflexivity.
Qed.

(** When the reply has at least one byte, the last one is read, and it is
    overwritten with NUL when it is a newline. *)
Lemma remove_trailing_newline_last (body : string) (c : ascii) (tr' : list event) :
  strlen (body ++ String c "")%string <= ID_LENGTH_MAX ->
  remove_trailing_newline (overwrite (body ++ String c "")%string id)
    (strlen (body ++ String c "")%string) tr'
  = (Returns (if Ascii.eqb c newline
              then overwrite (body ++ String NUL "")%string id
              else overwrite (body ++ String c "")%string id), tr').
Proof.
  intros Hmax. unfold strlen in *. rewrite string_length_snoc in *.
  unfold remove_trailing_newline, bind, id_read, id_write.
  replace (Z.of_nat (S (String.length body)) - 1)
    with (Z.of_nat (String.length body)) by lia.
  destruct (Z.of_nat (String.length body) <? 0) eqn:E1; [lia|].
  destruct (ID_LENGTH_MAX <=? Z.of_nat (String.length body)) eqn:E2; [lia|].
  unfold ret. rewrite Nat2Z.id, buffer_get_last. cbn.
  destruct (Ascii.eqb c newline); [|reflexivity].
  now rewrite buffer_set_last.
Qed.

(** Every transport call of [get_device_id] carries the timeout that
    [get_device_id] was given. *)
Lemma get_device_id_trace :
  exists rest,
    snd (get_device_id W address id timeout tr)
    = tr ++ Connect address 0 timeout :: rest
    /\ Forall (fun e => forall t, timeout_of e = Some t -> t = timeout) rest.
Proof.
  unfold get_device_id, bind, lxi_connect.
  destruct (connect_reply W _ =? LXI_ERROR).
  - eexists. split; [unfold printf, emit_event, ret; simpl;
      rewrite <- app_assoc; reflexivity|].
    repeat constructor; simpl; congruence.
  - unfold lxi_send, emit_event, lxi_receive.
    destruct (receive_reply W _) as [data|].
    + rewrite strlen_nonneg. unfold remove_trailing_newline, bind, id_read.
      destruct (_ || _); simpl.
      * eexists. split; [rewrite <- !app_assoc; reflexivity|].
        repeat constructor; simpl; congruence.
      * destruct (Ascii.eqb _ newline); unfold id_write, ret, raise;
          [destruct (_ || _)|]; simpl;
          (eexists; split; [rewrite <- !app_assoc; reflexivity|];
           repeat constructor; simpl; congruence).
    + simpl. eexists. split; [rewrite <- !app_assoc; reflexivity|].
      repeat constructor; simpl; congruence.
Qed.

(** So does every transport call of the Siglent handler. *)
Lemma siglent_sdm3000_screenshot_trace :
  exists rest,
    snd (siglent_sdm3000_screenshot W address id timeout tr)
    = tr ++ Connect address 0 timeout :: rest
    /\ Forall (fun e => forall t, timeout_of e = Some t -> t = timeout) rest.
Proof.
  unfold siglent_sdm3000_screenshot, bind, lxi_connect.
  destruct (connect_reply W _ =? LXI_ERROR).
  - eexists. split; [unfold error_printf, emit_event, ret; simpl;
      rewrite <- app_assoc; reflexivity|].
    repeat constructor; simpl; congruence.
  - unfold lxi_send, emit_event, lxi_receive.
    destruct (receive_reply W _) as [data|].
    + rewrite strlen_nonneg.
      unfold screenshot_file_dump, call_date_time, bind, ret, raise.
      repeat match goal with
             | |- context [if ?b then _ else _] => destruct b
             end;
        try destruct (fopen_reply W _);
        unfold bind, printf, emit_event, exit, lxi_disconnect, emit_event,
          ret; simpl;
        (eexists; split; [rewrite <- !app_assoc; reflexivity|];
         repeat constructor; simpl; congruence).
    + simpl. eexists. split; [rewrite <- !app_assoc; reflexivity|].
      repeat constructor; simpl; congruence.
Qed.

End IdentityQuery.

(** A reply that ends with a newline and holds no NUL leaves in [id] the C
    string without that newline; any other non-empty reply leaves [id] as
    it was received. *)
Lemma get_device_id_strips (W : world) (address id : string) (timeout : Z)
    (tr : list event) (body : string) (c : ascii) :
  connected W address timeout tr <> LXI_ERROR ->
  receive_reply W (queried W address timeout tr)
  = Some (body ++ String c "")%string ->
  strlen (body ++ String c "")%string <= ID_LENGTH_MAX ->
  get_device_id W address id timeout tr
  = (Returns (0, if Ascii.eqb c newline
                 then overwrite (body ++ String NUL "")%string id
                 else overwrite (body ++ String c "")%string id),
     queried W address timeout tr)
  /\ (Ascii.eqb c newline = true -> nul_free body = true ->
      c_string (overwrite (body ++ String NUL "")%string id) = body).
Proof.
  intros Hdev Hdata Hmax. split.
  - rewrite (get_device_id_received W address id timeout tr _ Hdev Hdata).
    unfold bind. now rewrite remove_trailing_newline_last.
  - intros _ Hbody. now apply c_string_terminated.
Qed.

(** In autodetect mode the identity query is made with [timeout != 0]:
    when the connection fails, the trace holds that one call. *)
Lemma identity_query_connect_failure {regex_t : Type}
    (regcomp : string -> option regex_t) (regexec : regex_t -> string -> bool)
    (W : world) (plugin_list : plugin_table)
    (address filename : string) (timeout : Z) (tr : list event) :
  address <> "" ->
  connected W address (if timeout =? 0 then 0 else 1) tr = LXI_ERROR ->
  screenshot regcomp regexec W plugin_list address "" filename timeout tr
  = (Exits EXIT_FAILURE,
     tr ++ [Connect address 0 (if timeout =? 0 then 0 else 1);
            Stdout ("Error: Failed to connect" ++ nl)%string;
            Stdout ("Error: Unable to retrieve instrument ID" ++ nl)%string]).
Proof.
  intros Haddr Hdev. unfold screenshot. rewrite (strlen_nonempty _ Haddr).
  change (strlen "" =? 0) with true. cbv iota.
  unfold bind at 1 2, get_device_id, bind at 1, lxi_connect.
  unfold connected in Hdev. rewrite Hdev.
  change (LXI_ERROR =? LXI_ERROR) with true. cbv iota.
  unfold bind, printf, emit_event, ret, exit. cbn.
  now rewrite <- !app_assoc.
Qed.

(** C10.  After every receive that is no error, [get_device_id] runs the
    statement that removes the trailing newline with the received length,
    and that statement reads [id[length-1]].  The error check lets length 0
    pass.  With at least one byte received (and no more than the array
    holds) the byte read is the last byte received; with 0 bytes the index
    is -1, outside the array. *)
Theorem strip_index_needs_a_byte (W : world) (address id : string)
    (timeout : Z) (tr : list event) (data : string) :
  connected W address timeout tr <> LXI_ERROR ->
  receive_reply W (queried W address timeout tr) = Some data ->
  let length := strlen data in
  (length <? 0) = false
  /\ get_device_id W address id timeout tr
     = (id' <- remove_trailing_newline (overwrite data id) length ;;
        ret (0, id')) (queried W address timeout tr)
  /\ (forall tr', ~ (0 <= length - 1 < ID_LENGTH_MAX) ->
        remove_trailing_newline (overwrite data id) length tr'
        = (Faults (OutOfBounds (length - 1)), tr'))
  /\ (0 <= length - 1 < length <-> 1 <= length)
  /\ (1 <= length <= ID_LENGTH_MAX ->
      exists body c,
        data = (body ++ String c "")%string
        /\ buffer_get (overwrite data id) (Z.to_nat (length - 1)) = Some c
        /\ fst (get_device_id W address id timeout tr)
           = Returns (0, if Ascii.eqb c newline
                         then overwrite (body ++ String NUL "")%string id
                         else overwrite data id))
  /\ (length = 0 ->
      get_device_id W address id timeout tr
      = (Faults (OutOfBounds (-1)), queried W address timeout tr)).
Proof.
  intros Hdev Hdata length.
  pose proof (get_device_id_received W address id timeout tr _ Hdev Hdata)
    as Hrun.
  split; [apply strlen_nonneg|]. split; [exact Hrun|]. split; [|split; [lia|split]].
  - intros tr' Hout. unfold remove_trailing_newline, bind, id_read.
    destruct ((length - 1 <? 0) || (ID_LENGTH_MAX <=? length - 1)) eqn:E;
      [reflexivity|].
    apply orb_false_iff in E as [E1 E2]. lia.
  - intros Hlen.
    destruct (string_snoc_cases data) as [->|(body & c & ->)];
      [unfold length, strlen in Hlen; simpl in Hlen; lia|].
    exists body, c. split; [reflexivity|]. split.
    + unfold length, strlen. rewrite string_length_snoc.
      replace (Z.to_nat (Z.of_nat (S (String.length body)) - 1))
        with (String.length body) by lia.
      apply buffer_get_last.
    + destruct (get_device_id_strips W address id timeout tr body c
                  Hdev Hdata ltac:(fold length; lia)) as [-> _].
      reflexivity.
  - intros Hzero. rewrite Hrun. fold length. rewrite Hzero.
    unfold bind, remove_trailing_newline, bind, id_read. reflexivity.
Qed.

Lemma strip_index_needs_a_byte_witness :
  get_device_id (Bench.instrument (Some "")) "10.0.0.42" "" 5 []
  = (Faults (OutOfBounds (-1)),
     [Connect "10.0.0.42" 0 5; Send 3 "*IDN?" 5 5; Receive 3 65536 5]).
Proof.
  apply (strip_index_needs_a_byte (Bench.instrument (Some "")) "10.0.0.42" ""
           5 [] "" ltac:(discriminate) eq_refl).
  reflexivity.
Defined.

(** C8, at the input where the program departs from it.  When the
    instrument answers the identity query with no byte at all, there is no
    last character and the identity should be left as it is; [screenshot]
    instead reads [id[-1]].  (For a reply of at least one byte the newline
    is removed as claimed: [get_device_id_strips].) *)
Theorem empty_identity_is_read_out_of_bounds :
  screenshot Literal.regcomp Literal.regexec (Bench.instrument (Some ""))
    Bench.family "10.0.0.42" "" "" 5 []
  = (Faults (OutOfBounds (-1)),
     [Connect "10.0.0.42" 0 1; Send 3 "*IDN?" 5 1; Receive 3 65536 1]).
Proof. vm_compute. reflexivity. Qed.

(** Whatever the timeout, the identity query carries [timeout != 0] and the
    handler carries the timeout itself; the two agree only for 0 and 1. *)
Lemma identity_query_timeout_any (timeout : Z) :
  let flag := if timeout =? 0 then 0 else 1 in
  transport_calls
    (snd (screenshot Literal.regcomp Literal.regexec Bench.sdm3055
            (Bench.table [siglent_sdm3000 Bench.sdm3055]) "10.0.0.42" "" ""
            timeout []))
  = [Connect "10.0.0.42" 0 flag; Send 3 "*IDN?" 5 flag; Receive 3 65536 flag;
     Connect "10.0.0.42" 0 timeout; Send 3 "scdp" 4 timeout;
     Receive 3 4194304 timeout; Disconnect 3]
  /\ (flag = timeout <-> timeout = 0 \/ timeout = 1).
Proof.
  intros flag. split.
  - vm_compute. reflexivity.
  - subst flag. destruct (timeout =? 0) eqn:E; lia.
Qed.

(** C3, at an input where the program departs from it.  Called with
    timeout 5 in autodetect mode, [screenshot] hands [timeout != 0], that
    is 1, to the identity query: its connect, send and receive carry
    timeout 1, while the calls of the selected handler carry timeout 5. *)
Theorem identity_query_timeout_is_a_flag :
  let run :=
    screenshot Literal.regcomp Literal.regexec Bench.sdm3055
      (Bench.table [siglent_sdm3000 Bench.sdm3055]) "10.0.0.42" "" "" 5 [] in
  fst run = Returns 0
  /\ transport_calls (snd run)
     = [Connect "10.0.0.42" 0 1; Send 3 "*IDN?" 5 1; Receive 3 65536 1;
        Connect "10.0.0.42" 0 5; Send 3 "scdp" 4 5; Receive 3 4194304 5;
        Disconnect 3].
Proof. vm_compute. split; reflexivity. Qed.

(** ** screenshot_list_plugins *)

Lemma stdout_of_app (a b : list event) :
  stdout_of (a ++ b) = (stdout_of a ++ stdout_of b)%string.
Proof.
  induction a as [|e a IH]; simpl; [reflexivity|].
  destruct e; try exact IH. now rewrite IH, string_app_assoc.
Qed.

Lemma putchar_times_run (n : nat) (tr : list event) :
  exists out,
    putchar_times n " " tr = (Returns tt, tr ++ out)
    /\ stdout_of out = spaces n.
Proof.
  revert tr. induction n as [|n IH]; intros tr; simpl.
  - exists []. now rewrite app_nil_r.
  - unfold bind, putchar, emit_event.
    destruct (IH (tr ++ [Stdout " "])) as (out & -> & Hout).
    exists (Stdout " " :: out). rewrite <- app_assoc. split; [reflexivity|].
    simpl. now rewrite Hout.
Qed.

Lemma int_of_size_t_small (n : Z) :
  0 <= n <= INT_MAX -> int_of_size_t n = n.
Proof.
  intros Hn. unfold int_of_size_t, INT_MAX in *.
  rewrite Z.mod_small by lia. lia.
Qed.

Lemma longest_name_max plugin_list n i length_max :
  0 <= length_max ->
  longest (map snd (scan plugin_list n i)) <= INT_MAX ->
  longest_name plugin_list n i length_max
  = Z.max length_max (longest (map snd (scan plugin_list n i))).
Proof.
  revert i length_max.
  induction n as [|n IH]; intros i length_max Hm Hfit; simpl in *.
  - lia.
  - destruct (slot plugin_list i) as [plugin|]; simpl in *; [|lia].
    assert (0 <= strlen (Plugin.name plugin)) by (unfold strlen; lia).
    rewrite int_of_size_t_small by lia.
    destruct (length_max <? strlen (Plugin.name plugin)) eqn:E;
      rewrite IH by lia; lia.
Qed.

Lemma longest_nonneg plugins : 0 <= longest plugins.
Proof. induction plugins; simpl; lia. Qed.

Lemma longest_bound plugins plugin :
  In plugin plugins -> strlen (Plugin.name plugin) <= longest plugins.
Proof.
  induction plugins as [|p plugins IH]; simpl; [contradiction|].
  intros [->|Hin]; [lia|]. specialize (IH Hin). lia.
Qed.

(** The longest name is the name of a registered descriptor. *)
Lemma longest_attained plugins :
  plugins <> [] ->
  exists plugin, In plugin plugins /\ strlen (Plugin.name plugin) = longest plugins.
Proof.
  induction plugins as [|p plugins IH]; [congruence|]. intros _. simpl.
  destruct plugins as [|p' plugins].
  - exists p. split; [now left|]. unfold strlen. simpl. lia.
  - destruct (IH ltac:(discriminate)) as (plugin & Hin & Hlen).
    destruct (Z.max_spec (strlen (Plugin.name p)) (longest (p' :: plugins)))
      as [[_ ->]|[_ ->]].
    + exists plugin. split; [now right | assumption].
    + exists p. split; [now left | reflexivity].
Qed.

Lemma string_concat_cons (x : string) (l : list string) :
  String.concat "" (x :: l) = (x ++ String.concat "" l)%string.
Proof. destruct l; simpl; [now rewrite string_app_nil_r | reflexivity]. Qed.

Lemma print_rows_run plugin_list n i length_max tr :
  (forall plugin, In plugin (map snd (scan plugin_list n i)) ->
                  strlen (Plugin.name plugin) <= length_max) ->
  length_max <= INT_MAX ->
  exists out,
    print_rows plugin_list n i length_max tr = (Returns tt, tr ++ out)
    /\ stdout_of out
       = String.concat "" (map (listing_row length_max)
                             (map snd (scan plugin_list n i))).
Proof.
  intros Hfit Hmax. revert i tr Hfit.
  induction n as [|n IH]; intros i tr Hfit.
  - exists []. now rewrite app_nil_r.
  - cbn [print_rows scan] in Hfit |- *.
    destruct (slot plugin_list i) as [plugin|] eqn:Es.
    2:{ exists []. now rewrite app_nil_r. }
    cbn [map snd] in Hfit |- *.
    assert (Hlen : strlen (Plugin.name plugin) <= length_max)
      by (apply Hfit; now left).
    assert (Hsub : size_t_sub length_max (strlen (Plugin.name plugin))
                   = length_max - strlen (Plugin.name plugin)).
    { unfold size_t_sub. apply Z.mod_small. unfold INT_MAX, strlen in *. lia. }
    unfold bind at 1, put_spaces. rewrite Hsub.
    destruct (putchar_times_run
                (Z.to_nat (length_max - strlen (Plugin.name plugin))) tr)
      as (pad & -> & Hpad).
    unfold bind at 1, printf at 1, emit_event.
    unfold bind at 1, printf at 1, emit_event.
    destruct (IH (i + 1)
                (((tr ++ pad) ++ [Stdout (Plugin.name plugin)])
                 ++ [Stdout ("   " ++ Plugin.description plugin ++ nl)%string])
                ltac:(intros q Hq; apply Hfit; now right))
      as (out & -> & Hout).
    exists (pad ++ Stdout (Plugin.name plugin)
              :: Stdout ("   " ++ Plugin.description plugin ++ nl)%string
              :: out).
    split; [rewrite <- !app_assoc; reflexivity|].
    rewrite stdout_of_app. cbn [stdout_of]. rewrite Hpad, Hout.
    rewrite string_concat_cons. unfold listing_row.
    now rewrite !string_app_assoc.
Qed.

Lemma leading_spaces_indent (indent : nat) (text : string) :
  leading_spaces text = O ->
  leading_spaces (spaces indent ++ text)%string = indent.
Proof.
  intros Htext. induction indent as [|n IH]; simpl; [assumption | now rewrite IH].
Qed.

Lemma spaces_length (n : nat) : String.length (spaces n) = n.
Proof. induction n as [|n IH]; simpl; [reflexivity | now rewrite IH]. Qed.

Lemma string_length_app (a b : string) :
  String.length (a ++ b)%string = (String.length a + String.length b)%nat.
Proof. induction a as [|x a IH]; simpl; [reflexivity | now rewrite IH]. Qed.

(** C9.  For every table whose names have lengths that fit the [int]
    variables of the code, [screenshot_list_plugins] prints the header
    "Name   Description" preceded by a number of spaces equal to the length
    of the longest registered name minus 4 (as a count: none when that
    name has 4 characters or fewer), then one line per descriptor in
    registration order: the name right-aligned in a column as wide as the
    longest registered name, three spaces, the description. *)
Theorem listing_layout (plugin_list : plugin_table) (tr : list event) :
  let plugins := map snd (registered plugin_list) in
  let width := longest plugins in
  width <= INT_MAX ->
  exists out,
    screenshot_list_plugins plugin_list tr = (Returns tt, tr ++ out)
    /\ stdout_of out
       = (spaces (Z.to_nat width - 4) ++ "Name   Description" ++ nl
          ++ String.concat "" (map (listing_row width) plugins))%string
    /\ leading_spaces (stdout_of out) = (Z.to_nat width - 4)%nat
    /\ stdout_of out = listing plugins
    /\ Z.of_nat (leading_spaces (stdout_of out)) = Z.max 0 (width - 4)
    /\ forall plugin, In plugin plugins ->
         listing_row width plugin
         = (spaces (Z.to_nat (width - strlen (Plugin.name plugin)))
            ++ Plugin.name plugin ++ "   " ++ Plugin.description plugin
            ++ nl)%string
         /\ strlen (spaces (Z.to_nat (width - strlen (Plugin.name plugin)))
                    ++ Plugin.name plugin)%string = width.
Proof.
  intros plugins width Hmax.
  assert (Hlongest : longest_name plugin_list
                       (Z.to_nat PLUGIN_LIST_SIZE_MAX) 0 0 = width).
  { rewrite longest_name_max by (try exact Hmax; lia).
    pose proof (longest_nonneg plugins). subst width plugins.
    unfold registered in *. lia. }
  unfold screenshot_list_plugins. rewrite Hlongest.
  unfold bind at 1, put_spaces.
  destruct (putchar_times_run (Z.to_nat (width - 4)) tr) as (pad & -> & Hpad).
  unfold bind at 1, printf, emit_event.
  destruct (print_rows_run plugin_list (Z.to_nat PLUGIN_LIST_SIZE_MAX) 0 width
              ((tr ++ pad) ++ [Stdout ("Name   Description" ++ nl)%string]))
    as (rows & -> & Hrows).
  { intros plugin Hin. now apply longest_bound. }
  { exact Hmax. }
  exists (pad ++ Stdout ("Name   Description" ++ nl)%string :: rows).
  assert (Hcount : Z.to_nat (width - 4) = (Z.to_nat width - 4)%nat) by lia.
  assert (Hout : stdout_of (pad ++ Stdout ("Name   Description" ++ nl)%string
                              :: rows)
                 = (spaces (Z.to_nat width - 4) ++ "Name   Description" ++ nl
                    ++ String.concat "" (map (listing_row width) plugins))%string).
  { rewrite stdout_of_app. cbn [stdout_of]. rewrite Hpad, Hrows, Hcount.
    now rewrite !string_app_assoc. }
  assert (Hlisting : stdout_of (pad ++ Stdout ("Name   Description" ++ nl)%string
                                  :: rows)
                     = listing plugins).
  { rewrite Hout. unfold listing, listing_header. fold width.
    replace (Z.to_nat (Z.max 0 (width - 4))) with (Z.to_nat width - 4)%nat
      by lia.
    now rewrite !string_app_assoc. }
  assert (Hlead : leading_spaces
                    (stdout_of (pad ++ Stdout ("Name   Description" ++ nl)%string
                                  :: rows))
                  = (Z.to_nat width - 4)%nat).
  { rewrite Hout. now apply leading_spaces_indent. }
  split; [rewrite <- !app_assoc; reflexivity|]. split; [exact Hout|].
  split; [exact Hlead|]. split; [exact Hlisting|]. split.
  - rewrite Hlead. lia.
  - intros plugin Hin. split; [reflexivity|].
    pose proof (longest_bound _ _ Hin) as Hlen.
    fold width in Hlen. unfold strlen in *.
    rewrite string_length_app, spaces_length. lia.
Qed.

Lemma listing_layout_witness :
  stdout_of (snd (screenshot_list_plugins Bench.family []))
  = ("    Name   Description" ++ nl
     ++ "       a   description of a" ++ nl
     ++ "       b   description of b" ++ nl
     ++ "longname   description of longname" ++ nl)%string.
Proof.
  destruct (listing_layout Bench.family [])
    as (out & Hrun & Hout & _).
  - vm_compute. discriminate.
  - rewrite Hrun. cbn [snd app]. rewrite Hout. vm_compute. reflexivity.
Defined.

(** ** The scenarios of the specification, run on the bench *)

Example scenario_most_fragments_wins :
  autodetect Literal.regcomp Literal.regexec Bench.family "FOO BAR BAZ" = 1
  /\ score Literal.regcomp Literal.regexec "FOO BAR BAZ" Bench.foo = 1
  /\ score Literal.regcomp Literal.regexec "FOO BAR BAZ" Bench.foo_bar = 2.
Proof. vm_compute. repeat split. Qed.

(** Against the identity "FOO" the pattern string "FOO BAR" has one
    matching fragment: both descriptors score 1 and the first one wins. *)
Example scenario_single_fragment :
  autodetect Literal.regcomp Literal.regexec Bench.family "FOO" = 0
  /\ score Literal.regcomp Literal.regexec "FOO" Bench.foo = 1
  /\ score Literal.regcomp Literal.regexec "FOO" Bench.foo_bar = 1.
Proof. vm_compute. repeat split. Qed.

Example scenario_tie_goes_to_first :
  autodetect Literal.regcomp Literal.regexec Bench.twins "FOO" = 0.
Proof. vm_compute. reflexivity. Qed.

Example scenario_explicit_name_skips_query :
  screenshot Literal.regcomp Literal.regexec (Bench.instrument None)
    Bench.family "10.0.0.42" "a" "" 5 []
  = (Returns 5, [Stdout "a"]).
Proof. vm_compute. reflexivity. Qed.

Example scenario_siglent_identity :
  count_matches Literal.regcomp Literal.regexec (c_string Bench.idn)
    "SIGLENT TECHNOLOGIES Siglent Technologies SDM3..." = 3.
Proof. vm_compute. reflexivity. Qed.

Example scenario_registration :
  Bench.family = table_of [Bench.foo; Bench.foo_bar; Bench.silent]
  /\ map fst (registered Bench.family) = [0; 1; 2].
Proof. vm_compute. split; reflexivity. Qed.

(** * Further properties of the code *)

(** ** The score of a pattern string *)

Lemma fragments_from_app_sep (sep : ascii -> bool) (a : string) (c : ascii)
    (b cur : string) :
  sep c = true ->
  fragments_from sep (a ++ String c b)%string cur
  = fragments_from sep a cur ++ fragments_from sep b "".
Proof.
  intros Hc. revert cur. induction a as [|x a IH]; intros cur; simpl.
  - now rewrite Hc.
  - destruct (sep x); [|apply IH]. now rewrite IH, app_assoc.
Qed.

(** X1.  The score of two pattern strings joined by a space is the sum of
    their scores: each fragment is matched on its own, whatever stands
    beside it.  So a longer pattern string never scores less. *)
Theorem score_of_joined_patterns {regex_t : Type}
    (regcomp : string -> option regex_t) (regexec : regex_t -> string -> bool)
    (id a b : string) :
  count_matches regcomp regexec id (a ++ " " ++ b)%string
  = count_matches regcomp regexec id a + count_matches regcomp regexec id b
  /\ count_matches regcomp regexec id a
     <= count_matches regcomp regexec id (a ++ " " ++ b)%string
  /\ count_matches regcomp regexec id b
     <= count_matches regcomp regexec id (a ++ " " ++ b)%string.
Proof.
  assert (Hsum : count_matches regcomp regexec id (a ++ " " ++ b)%string
                 = count_matches regcomp regexec id a
                   + count_matches regcomp regexec id b).
  { rewrite !count_matches_matching. unfold space_fragments, fragments.
    change (a ++ " " ++ b)%string with (a ++ String " " b)%string.
    rewrite fragments_from_app_sep by reflexivity. apply matching_app. }
  pose proof (count_matches_bounds regcomp regexec id a).
  pose proof (count_matches_bounds regcomp regexec id b).
  split; [exact Hsum | lia].
Qed.

(** X2.  The count of matches is never negative and never exceeds the
    number of characters of the pattern string: for a pattern string of at
    most [INT_MAX] characters the [int] that holds it does not overflow. *)
Theorem match_count_fits_int {regex_t : Type}
    (regcomp : string -> option regex_t) (regexec : regex_t -> string -> bool)
    (id regex : string) :
  strlen regex <= INT_MAX ->
  0 <= count_matches regcomp regexec id regex <= strlen regex
  /\ count_matches regcomp regexec id regex <= INT_MAX.
Proof.
  intros Hlen. pose proof (count_matches_bounds regcomp regexec id regex). lia.
Qed.

Lemma match_count_fits_int_witness :
  0 <= count_matches Literal.regcomp Literal.regexec "FOO BAR BAZ" "FOO BAR"
    <= 7.
Proof.
  apply (match_count_fits_int Literal.regcomp Literal.regexec "FOO BAR BAZ"
           "FOO BAR").
  vm_compute. discriminate.
Defined.

(** ** Autodetection *)

(** X3.  The index that autodetection returns is -1 or the index of an
    entry of the table that holds a descriptor: it lies below
    [PLUGIN_LIST_SIZE_MAX], and [plugin_list[plugin_winner]] is not NULL. *)
Theorem autodetect_index_in_range {regex_t : Type}
    (regcomp : string -> option regex_t) (regexec : regex_t -> string -> bool)
    (plugin_list : plugin_table) (id : string) :
  let w := autodetect regcomp regexec plugin_list id in
  -1 <= w < PLUGIN_LIST_SIZE_MAX
  /\ (w = -1 \/ exists plugin, 0 <= w /\ slot plugin_list w = Some plugin).
Proof.
  intros w. subst w.
  destruct (autodetect_spec regcomp regexec plugin_list id)
    as [[-> _]|(p & Hp & _)].
  - split; [unfold PLUGIN_LIST_SIZE_MAX; lia | now left].
  - apply scan_In in Hp as [Hrange Hslot].
    rewrite Z2Nat.id in Hrange by (unfold PLUGIN_LIST_SIZE_MAX; lia).
    split; [lia | right; exists p; split; [lia | exact Hslot]].
Qed.

(** X4.  As soon as one registered descriptor scores more than 0,
    autodetection selects a descriptor, and the selected one scores at
    least as much. *)
Theorem autodetect_finds_a_match {regex_t : Type}
    (regcomp : string -> option regex_t) (regexec : regex_t -> string -> bool)
    (plugin_list : plugin_table) (id : string) (j : Z) (q : screenshot_plugin) :
  In (j, q) (registered plugin_list) ->
  0 < score regcomp regexec id q ->
  exists p,
    In (autodetect regcomp regexec plugin_list id, p) (registered plugin_list)
    /\ score regcomp regexec id q <= score regcomp regexec id p
    /\ autodetect regcomp regexec plugin_list id <> -1.
Proof.
  intros Hin Hpos.
  destruct (autodetect_spec regcomp regexec plugin_list id)
    as [[_ Hnone]|(p & Hp & _ & Hmax)].
  - specialize (Hnone _ _ Hin). lia.
  - exists p. split; [exact Hp|]. split; [now apply (Hmax j q)|].
    apply scan_In in Hp. lia.
Qed.

Lemma autodetect_finds_a_match_witness :
  autodetect Literal.regcomp Literal.regexec Bench.family "FOO BAR BAZ" <> -1.
Proof.
  destruct (autodetect_finds_a_match Literal.regcomp Literal.regexec
              Bench.family "FOO BAR BAZ" 0 Bench.foo)
    as (p & _ & _ & Hw).
  - vm_compute. auto.
  - vm_compute. reflexivity.
  - exact Hw.
Defined.



(** ** The identity query *)

(** X6.  In autodetect mode a failure of the identity query is fatal: when
    the connection fails, or when the reply cannot be received,
    [screenshot] prints the two diagnostics and exits with [EXIT_FAILURE];
    no handler runs and no further transport call is made. *)
Theorem identity_query_failure_is_fatal {regex_t : Type}
    (regcomp : string -> option regex_t) (regexec : regex_t -> string -> bool)
    (W : world) (plugin_list : plugin_table)
    (address filename : string) (timeout : Z) (tr : list event) :
  address <> "" ->
  let flag := if timeout =? 0 then 0 else 1 in
  (connected W address flag tr = LXI_ERROR ->
   screenshot regcomp regexec W plugin_list address "" filename timeout tr
   = (Exits EXIT_FAILURE,
      tr ++ [Connect address 0 flag;
             Stdout ("Error: Failed to connect" ++ nl)%string;
             Stdout ("Error: Unable to retrieve instrument ID" ++ nl)%string]))
  /\ (connected W address flag tr <> LXI_ERROR ->
      receive_reply W (queried W address flag tr) = None ->
      screenshot regcomp regexec W plugin_list address "" filename timeout tr
      = (Exits EXIT_FAILURE,
         queried W address flag tr
         ++ [Stdout ("Error: Failed to receive message" ++ nl)%string;
             Stdout ("Error: Unable to retrieve instrument ID" ++ nl)%string])).
Proof.
  intros Haddr flag. split.
  - intros Hdev. now apply identity_query_connect_failure.
  - intros Hdev Hrecv. apply Z.eqb_neq in Hdev.
    unfold screenshot. rewrite (strlen_nonempty _ Haddr).
    change (strlen "" =? 0) with true. cbv iota. fold flag.
    unfold bind at 1 2, get_device_id, bind at 1, lxi_connect.
    fold (connected W address flag tr). rewrite Hdev.
    unfold bind at 1, lxi_send, emit_event.
    unfold bind at 1, lxi_receive. rewrite <- !app_assoc. simpl app.
    change (strlen "*IDN?") with 5. fold (queried W address flag tr).
    rewrite Hrecv. change (LXI_ERROR <? 0) with true. cbv iota.
    unfold bind, printf, emit_event, ret, exit. cbn.
    now rewrite <- !app_assoc.
Qed.

Lemma identity_query_failure_is_fatal_witness :
  screenshot Literal.regcomp Literal.regexec (Bench.instrument None)
    Bench.family "10.0.0.42" "" "" 5 []
  = (Exits 1,
     [Connect "10.0.0.42" 0 1; Send 3 "*IDN?" 5 1; Receive 3 65536 1;
      Stdout ("Error: Failed to receive message" ++ nl)%string;
      Stdout ("Error: Unable to retrieve instrument ID" ++ nl)%string]).
Proof.
  apply (proj2 (identity_query_failure_is_fatal Literal.regcomp
                  Literal.regexec (Bench.instrument None) Bench.family
                  "10.0.0.42" "" 5 [] ltac:(discriminate))).
  - discriminate.
  - reflexivity.
Defined.

(** X7.  [get_device_id] never disconnects: whatever the instrument does,
    the events it adds hold no [lxi_disconnect], so the connection opened
    for the identity query stays open; nor does it write a file. *)
Theorem get_device_id_never_disconnects (W : world) (address id : string)
    (timeout : Z) (tr : list event) :
  exists rest,
    snd (get_device_id W address id timeout tr) = tr ++ rest
    /\ Forall (fun e => is_disconnect e = false /\ is_fwrite e = false) rest.
Proof.
  unfold get_device_id, bind, lxi_connect.
  destruct (connect_reply W _ =? LXI_ERROR).
  - eexists. split; [unfold printf, emit_event, ret; simpl;
      rewrite <- app_assoc; reflexivity|].
    repeat constructor.
  - unfold lxi_send, emit_event, lxi_receive.
    destruct (receive_reply W _) as [data|].
    + rewrite strlen_nonneg. unfold remove_trailing_newline, bind, id_read.
      destruct (_ || _); simpl.
      * eexists. split; [rewrite <- !app_assoc; reflexivity|].
        repeat constructor.
      * destruct (Ascii.eqb _ newline); unfold id_write, ret, raise;
          [destruct (_ || _)|]; simpl;
          (eexists; split; [rewrite <- !app_assoc; reflexivity|];
           repeat constructor).
    + simpl. eexists. split; [rewrite <- !app_assoc; reflexivity|].
      repeat constructor.
Qed.

Lemma buffer_tail_nil (n : nat) : buffer_tail n "" = "".
Proof. destruct n; reflexivity. Qed.

Lemma c_string_overwrite (data buf : string) :
  nul_free data = true ->
  c_string (overwrite data buf)
  = (data ++ c_string (buffer_tail (String.length data) buf))%string.
Proof.
  revert buf. induction data as [|c data IH]; intros buf; simpl.
  - reflexivity.
  - intros H. apply andb_prop in H as [Hc Hdata].
    apply negb_true_iff in Hc. rewrite Hc, IH by assumption.
    destruct buf; [now rewrite buffer_tail_nil | reflexivity].
Qed.

Lemma nul_free_app (a b : string) :
  nul_free (a ++ b)%string = nul_free a && nul_free b.
Proof.
  induction a as [|c a IH]; simpl; [reflexivity|].
  now rewrite IH, andb_assoc.
Qed.

Lemma c_string_stops (buf : string) (k : nat) :
  buffer_get buf k = Some NUL ->
  (String.length (c_string buf) <= k)%nat
  /\ buffer_get buf (String.length (c_string buf)) = Some NUL.
Proof.
  revert k. induction buf as [|b buf IH]; intros k Hk.
  - destruct k; discriminate.
  - simpl. destruct (Ascii.eqb b NUL) eqn:E.
    + apply Ascii.eqb_eq in E. subst b. simpl. split; [lia | reflexivity].
    + destruct k as [|k].
      * simpl in Hk. inversion Hk; subst.
        rewrite Ascii.eqb_refl in E. discriminate.
      * simpl in Hk. destruct (IH k Hk) as [Hle Hget].
        simpl. split; [lia | exact Hget].
Qed.

Lemma terminated_c_string (buf : string) (size : Z) :
  terminated buf size ->
  strlen (c_string buf) < size
  /\ buffer_get buf (String.length (c_string buf)) = Some NUL.
Proof.
  intros (k & Hk & Hget). destruct (c_string_stops buf k Hget) as [Hle Hnul].
  unfold strlen. split; [lia | exact Hnul].
Qed.

(** X8.  What the identity is after a reply of 1 to [ID_LENGTH_MAX] bytes
    that holds no NUL, when reading it as a C string stays inside the
    [ID_LENGTH_MAX] bytes of the array.  When the reply ends with a newline
    the strip itself writes the terminator: the identity is the reply
    without the newline.  Otherwise the code writes no terminator, and the
    array has to hold a NUL among its [ID_LENGTH_MAX] bytes once the reply
    is stored (this excludes a reply that fills the array): the identity is
    then the reply followed by whatever the array held after those bytes,
    up to that first NUL.  In both cases the array is terminated inside its
    bounds afterwards and the identity is shorter than [ID_LENGTH_MAX]. *)
Theorem identity_after_reply (W : world) (address id : string) (timeout : Z)
    (tr : list event) (body : string) (c : ascii) :
  connected W address timeout tr <> LXI_ERROR ->
  receive_reply W (queried W address timeout tr)
  = Some (body ++ String c "")%string ->
  strlen (body ++ String c "")%string <= ID_LENGTH_MAX ->
  nul_free (body ++ String c "")%string = true ->
  (Ascii.eqb c newline = false ->
   terminated (overwrite (body ++ String c "")%string id) ID_LENGTH_MAX) ->
  exists id',
    get_device_id W address id timeout tr
    = (Returns (0, id'), queried W address timeout tr)
    /\ terminated id' ID_LENGTH_MAX
    /\ strlen (c_string id') < ID_LENGTH_MAX
    /\ c_string id'
       = if Ascii.eqb c newline then body
         else (body ++ String c ""
               ++ c_string (buffer_tail (S (String.length body)) id))%string.
Proof.
  intros Hdev Hdata Hmax Hnul Hterm.
  destruct (get_device_id_strips W address id timeout tr body c
              Hdev Hdata Hmax) as [Hrun Hstrip].
  eexists. split; [exact Hrun|].
  rewrite nul_free_app in Hnul. apply andb_prop in Hnul as [Hbody Hc].
  unfold strlen in Hmax. rewrite string_length_snoc in Hmax.
  destruct (Ascii.eqb c newline) eqn:E.
  - assert (Hin : terminated
                    (overwrite (body ++ String NUL "")%string id)
                    ID_LENGTH_MAX).
    { exists (String.length body). split; [lia | apply buffer_get_last]. }
    split; [exact Hin|].
    split; [apply (terminated_c_string _ _ Hin)|].
    now apply c_string_terminated.
  - specialize (Hterm eq_refl).
    split; [exact Hterm|].
    split; [apply (terminated_c_string _ _ Hterm)|].
    rewrite c_string_overwrite
      by (rewrite nul_free_app, Hbody, Hc; reflexivity).
    rewrite string_length_snoc. now rewrite string_app_assoc.
Qed.

Lemma identity_after_reply_witness :
  exists id',
    get_device_id
      {| connect_reply := fun _ => 3;
         receive_reply := fun _ => Some "FOO";
         fopen_reply := fun _ => None;
         date_time := fun _ => "";
         option_screenshot_filename := "";
         option_ip := "";
         id_uninitialised := "";
         malloc_uninitialised := "" |}
      "10.0.0.42" ("stal" ++ String NUL "e")%string 1 []
    = (Returns (0, id'),
       [Connect "10.0.0.42" 0 1; Send 3 "*IDN?" 5 1; Receive 3 65536 1])
    /\ terminated id' ID_LENGTH_MAX
    /\ strlen (c_string id') < ID_LENGTH_MAX
    /\ c_string id' = "FOOl".
Proof.
  assert (Hstale : terminated
                     (overwrite ("FO" ++ String "O" "")
                        ("stal" ++ String NUL "e"))%string ID_LENGTH_MAX).
  { exists 4%nat. split; [vm_compute; reflexivity | reflexivity]. }
  destruct (identity_after_reply
              {| connect_reply := fun _ => 3;
                 receive_reply := fun _ => Some "FOO";
                 fopen_reply := fun _ => None;
                 date_time := fun _ => "";
                 option_screenshot_filename := "";
                 option_ip := "";
                 id_uninitialised := "";
                 malloc_uninitialised := "" |}
              "10.0.0.42" ("stal" ++ String NUL "e")%string 1 [] "FO" "O"
              ltac:(discriminate) eq_refl ltac:(vm_compute; discriminate)
              eq_refl
              (fun _ => Hstale))
    as (id' & Hrun & Hterm & Hlen & Hid).
  exists id'. split; [exact Hrun|]. split; [exact Hterm|].
  split; [exact Hlen | exact Hid].
Defined.

(** ** The Siglent handler and the file dump *)

Lemma substring_overwrite (data buf : string) :
  String.substring 0 (String.length data) (overwrite data buf) = data.
Proof.
  revert buf. induction data as [|c data IH]; intros buf; simpl.
  - destruct buf; reflexivity.
  - now rewrite IH.
Qed.

Lemma substring_prefix (n : nat) (s : string) :
  (n <= String.length s)%nat ->
  exists rest,
    s = (String.substring 0 n s ++ rest)%string
    /\ String.length (String.substring 0 n s) = n.
Proof.
  revert s. induction n as [|n IH]; intros s Hn.
  - exists s. destruct s; split; reflexivity.
  - destruct s as [|c s]; simpl in Hn; [lia|].
    destruct (IH s ltac:(lia)) as (rest & Hs & Hlen).
    exists rest. simpl. split; [now rewrite <- Hs | now rewrite Hlen].
Qed.

Lemma strlen_zero (s : string) : (strlen s =? 0) = true -> s = "".
Proof.
  intros H. apply Z.eqb_eq in H. unfold strlen in H.
  destruct s; [reflexivity | simpl in H; lia].
Qed.

(** When the file name fits, [screenshot_file_dump] goes on to [fopen] with
    the resolved name. *)
Lemma file_dump_fits (W : world) (data : string) (length : Z)
    (format : string) (tr : list event) :
  filename_fits W tr format ->
  screenshot_file_dump W data length format tr
  = match fopen_reply W tr with
    | Some reason =>
        (Exits EXIT_FAILURE,
         tr ++ [Stdout ("Error: Could not write screenshot file (" ++ reason
                          ++ ")" ++ nl)%string])
    | None =>
        (Returns tt,
         tr ++ [Fwrite (resolved_filename W tr format)
                  (String.substring 0 (Z.to_nat length) data);
                Stdout ("Saved screenshot image to "
                          ++ resolved_filename W tr format ++ nl)%string])
    end.
Proof.
  intros Hfit. unfold screenshot_file_dump, resolved_filename in *.
  unfold filename_fits, resolved_filename in Hfit.
  destruct (strlen (option_screenshot_filename W) =? 0) eqn:E.
  - destruct Hfit as [Hname|[Hdate Hfile]].
    { now rewrite (strlen_nonempty _ Hname) in E. }
    apply Z.leb_le in Hdate, Hfile.
    unfold bind at 1 2, call_date_time. rewrite Hdate. cbv beta iota zeta.
    rewrite Hfile. unfold ret.
    destruct (fopen_reply W tr);
      unfold bind, printf, emit_event, exit; [reflexivity|].
    now rewrite <- app_assoc.
  - unfold bind at 1, ret.
    destruct (fopen_reply W tr);
      unfold bind, printf, emit_event, exit; [reflexivity|].
    now rewrite <- app_assoc.
Qed.

(** When the automatic file name, or the text of [date_time] in it, does
    not fit its array, [screenshot_file_dump] overflows the array before it
    opens any file. *)
Lemma file_dump_overflow (W : world) (data : string) (length : Z)
    (format : string) (tr : list event) :
  option_screenshot_filename W = "" ->
  50 < strlen (date_time W tr) + 1
  \/ 1000 < strlen (resolved_filename W tr format) + 1 ->
  exists needed,
    screenshot_file_dump W data length format tr
    = (Faults (BufferOverflow needed), tr).
Proof.
  intros Hname Hover. unfold screenshot_file_dump, resolved_filename in *.
  rewrite Hname in *. change (strlen "" =? 0) with true in *. cbv iota in *.
  unfold bind at 1 2, call_date_time.
  destruct (strlen (date_time W tr) + 1 <=? 50) eqn:Ed;
    [|eexists; reflexivity].
  apply Z.leb_le in Ed. destruct Hover as [Hover|Hover]; [lia|].
  cbv beta iota zeta.
  destruct (strlen _ + 1 <=? 1000) eqn:Ef;
    [apply Z.leb_le in Ef; lia | eexists; reflexivity].
Qed.

(** X9.  When the file name fits its array, [screenshot_file_dump] writes
    the first [length] bytes of the data to the file named by the user, or
    else to screenshot_<ip>_<date and time>.<format>, and reports that
    name; when the file cannot be opened it writes nothing, prints the
    reason and exits with [EXIT_FAILURE].  When the automatic name needs
    more than the 1000 bytes of [automatic_filename] (or the text of
    [date_time] more than its 50 bytes), the array is overflowed before any
    file is opened. *)
Theorem file_dump_outcome (W : world) (data : string) (length : Z)
    (format : string) (tr : list event) :
  0 <= length <= strlen data ->
  let filename := resolved_filename W tr format in
  (filename_fits W tr format ->
   match fopen_reply W tr with
   | Some reason =>
       screenshot_file_dump W data length format tr
       = (Exits EXIT_FAILURE,
          tr ++ [Stdout ("Error: Could not write screenshot file (" ++ reason
                           ++ ")" ++ nl)%string])
   | None =>
       exists written rest,
         data = (written ++ rest)%string /\ strlen written = length
         /\ screenshot_file_dump W data length format tr
            = (Returns tt,
               tr ++ [Fwrite filename written;
                      Stdout ("Saved screenshot image to " ++ filename
                                ++ nl)%string])
   end)
  /\ (option_screenshot_filename W = "" ->
      50 < strlen (date_time W tr) + 1 \/ 1000 < strlen filename + 1 ->
      exists needed,
        screenshot_file_dump W data length format tr
        = (Faults (BufferOverflow needed), tr))
  /\ (option_screenshot_filename W <> "" ->
      filename = option_screenshot_filename W)
  /\ (option_screenshot_filename W = "" ->
      filename = ("screenshot_" ++ option_ip W ++ "_" ++ date_time W tr ++ "."
                    ++ format)%string).
Proof.
  intros Hlen filename. split; [|split; [|split]].
  - intros Hfit. rewrite (file_dump_fits W data length format tr Hfit).
    destruct (fopen_reply W tr) as [reason|]; [reflexivity|].
    destruct (substring_prefix (Z.to_nat length) data
                ltac:(unfold strlen in Hlen; lia)) as (rest & Hdata & Hw).
    exists (String.substring 0 (Z.to_nat length) data), rest.
    split; [exact Hdata|]. split; [unfold strlen; rewrite Hw; lia|].
    reflexivity.
  - intros Hname Hover. now apply file_dump_overflow.
  - intros Hname. unfold filename, resolved_filename.
    now rewrite (strlen_nonempty _ Hname).
  - intros Hname. unfold filename, resolved_filename.
    now rewrite Hname.
Qed.

Lemma file_dump_outcome_witness :
  exists written rest,
    "BM6xx" = (written ++ rest)%string /\ strlen written = 3
    /\ screenshot_file_dump (Bench.instrument None) "BM6xx" 3 "bmp" []
       = (Returns tt,
          [Fwrite "screenshot_10.0.0.42_2017-11-05_12:00:00.bmp" written;
           Stdout ("Saved screenshot image to "
                   ++ "screenshot_10.0.0.42_2017-11-05_12:00:00.bmp"
                   ++ nl)%string]).
Proof.
  apply (proj1 (file_dump_outcome (Bench.instrument None) "BM6xx" 3 "bmp" []
                  ltac:(vm_compute; split; discriminate))).
  right. vm_compute. split; discriminate.
Defined.

(** X10.  When the instrument accepts the connection, delivers a reply, the
    file name fits its array and the file can be opened, the Siglent
    handler sends "scdp", writes exactly the bytes of the reply to the
    file, disconnects and returns 0. *)
Theorem siglent_screenshot_saves_the_reply (W : world) (address id : string)
    (timeout : Z) (tr : list event) (data : string) :
  connected W address timeout tr <> LXI_ERROR ->
  receive_reply W (captured W address timeout tr) = Some data ->
  filename_fits W (captured W address timeout tr) "bmp" ->
  fopen_reply W (captured W address timeout tr) = None ->
  let filename := resolved_filename W (captured W address timeout tr) "bmp" in
  siglent_sdm3000_screenshot W address id timeout tr
  = (Returns 0,
     captured W address timeout tr
     ++ [Fwrite filename data;
         Stdout ("Saved screenshot image to " ++ filename ++ nl)%string;
         Disconnect (connected W address timeout tr)]).
Proof.
  intros Hdev Hdata Hfit Hopen filename. apply Z.eqb_neq in Hdev.
  unfold siglent_sdm3000_screenshot, bind at 1, lxi_connect.
  fold (connected W address timeout tr). rewrite Hdev.
  unfold bind at 1, lxi_send, emit_event.
  unfold bind at 1, lxi_receive. rewrite <- !app_assoc. simpl app.
  change (strlen "scdp") with 4. fold (captured W address timeout tr).
  rewrite Hdata, strlen_nonneg.
  unfold bind at 1. rewrite (file_dump_fits _ _ _ _ _ Hfit), Hopen.
  fold filename. unfold strlen. rewrite Nat2Z.id, substring_overwrite.
  unfold bind, lxi_disconnect, emit_event, ret.
  now rewrite <- !app_assoc.
Qed.

Lemma siglent_screenshot_saves_the_reply_witness :
  siglent_sdm3000_screenshot Bench.sdm3055 "10.0.0.42" "" 7 []
  = (Returns 0,
     [Connect "10.0.0.42" 0 7; Send 3 "scdp" 4 7; Receive 3 4194304 7;
      Fwrite "screenshot_10.0.0.42_2017-11-05_12:00:00.bmp" "BM6";
      Stdout ("Saved screenshot image to "
              ++ "screenshot_10.0.0.42_2017-11-05_12:00:00.bmp" ++ nl)%string;
      Disconnect 3]).
Proof.
  apply (siglent_screenshot_saves_the_reply Bench.sdm3055 "10.0.0.42" "" 7 []
           "BM6" ltac:(discriminate) eq_refl
           ltac:(right; vm_compute; split; discriminate) eq_refl).
Defined.

(** The first four conjuncts of the outcome statement, at a trace that is
    known. *)
Ltac settle_outcome :=
  simpl;
  split;
  [solve [auto | right; auto | right; right; auto
          | right; right; right; eauto]|];
  split; [split; intros ?H; first [reflexivity | discriminate]|];
  split; [split; intros ?H; first [reflexivity | discriminate]|].

(** X11.  The Siglent handler returns 0, returns 1, exits with
    [EXIT_FAILURE] or overflows the array of the file name.  It has
    written a file exactly when it returns 0, and it has disconnected
    exactly when it returns 0: on every failure path (no connection, no
    reply, file name too long, file not opened) nothing is written and the
    connection, if there is one, is left open. *)
Theorem siglent_screenshot_outcomes (W : world) (address id : string)
    (timeout : Z) (tr : list event) :
  exists r rest,
    siglent_sdm3000_screenshot W address id timeout tr = (r, tr ++ rest)
    /\ (r = Returns 0 \/ r = Returns 1 \/ r = Exits EXIT_FAILURE
        \/ exists needed, r = Faults (BufferOverflow needed))
    /\ (existsb is_fwrite rest = true <-> r = Returns 0)
    /\ (existsb is_disconnect rest = true <-> r = Returns 0)
    /\ ((exists needed, r = Faults (BufferOverflow needed)) ->
        option_screenshot_filename W = ""
        /\ ~ filename_fits W (captured W address timeout tr) "bmp").
Proof.
  unfold siglent_sdm3000_screenshot, bind at 1, lxi_connect.
  fold (connected W address timeout tr).
  destruct (connected W address timeout tr =? LXI_ERROR).
  - eexists _, _. split; [unfold bind, error_printf, emit_event, ret;
      rewrite <- app_assoc; reflexivity|].
    settle_outcome. intros [needed Hr]; discriminate.
  - unfold bind at 1, lxi_send, emit_event.
    unfold bind at 1, lxi_receive. rewrite <- !app_assoc. simpl app.
    change (strlen "scdp") with 4. fold (captured W address timeout tr).
    destruct (receive_reply W _) as [data|].
    + rewrite strlen_nonneg. unfold bind at 1.
      destruct (String.string_dec (option_screenshot_filename W) "")
        as [Hname|Hname].
      * destruct (Z_le_gt_dec
                    (strlen (date_time W (captured W address timeout tr)) + 1)
                    50) as [Hd|Hd];
        [destruct (Z_le_gt_dec
                     (strlen (resolved_filename W
                                (captured W address timeout tr) "bmp") + 1)
                     1000) as [Hf|Hf]|].
        -- rewrite (file_dump_fits W _ _ "bmp" _ (or_intror (conj Hd Hf))).
           destruct (fopen_reply W _) as [reason|].
           ++ eexists _, _. split; [unfold captured; rewrite <- ?app_assoc; reflexivity|].
              settle_outcome. intros [needed Hr]; discriminate.
           ++ eexists _, _. split; [unfold bind, lxi_disconnect, emit_event,
                ret; unfold captured; rewrite <- !app_assoc; reflexivity|].
              settle_outcome. intros [needed Hr]; discriminate.
        -- destruct (file_dump_overflow W
                       (overwrite data (malloc_uninitialised W))
                       (strlen data) "bmp" (captured W address timeout tr)
                       Hname) as [needed ->]; [right; lia|].
           eexists _, _. split; [unfold captured; reflexivity|].
           settle_outcome. intros _. split; [exact Hname|].
           intros [Hne|[_ Hfit]]; [contradiction | lia].
        -- destruct (file_dump_overflow W
                       (overwrite data (malloc_uninitialised W))
                       (strlen data) "bmp" (captured W address timeout tr)
                       Hname) as [needed ->]; [left; lia|].
           eexists _, _. split; [unfold captured; reflexivity|].
           settle_outcome. intros _. split; [exact Hname|].
           intros [Hne|[Hfit _]]; [contradiction | lia].
      * rewrite (file_dump_fits W _ _ "bmp" _ (or_introl Hname)).
        destruct (fopen_reply W _) as [reason|].
        -- eexists _, _. split; [unfold captured; rewrite <- ?app_assoc; reflexivity|].
           settle_outcome. intros [needed Hr]; discriminate.
        -- eexists _, _. split; [unfold bind, lxi_disconnect, emit_event,
             ret; unfold captured; rewrite <- !app_assoc; reflexivity|].
           settle_outcome. intros [needed Hr]; discriminate.
    + change (LXI_ERROR <? 0) with true. cbv iota.
      eexists _, _. split; [unfold bind, error_printf, emit_event, ret;
        unfold captured; rewrite <- !app_assoc; reflexivity|].
      settle_outcome. intros [needed Hr]; discriminate.
Qed.

(** ** Registration *)

Lemma register_all_table_of (done todo : list screenshot_plugin)
    (tr : list event) :
  (List.length (done ++ todo) <= Z.to_nat PLUGIN_LIST_SIZE_MAX)%nat ->
  register_all (table_of done) todo tr
  = (Returns (table_of (done ++ todo)), tr).
Proof.
  revert done. induction todo as [|p todo IH]; intros done Hd; simpl.
  - now rewrite app_nil_r.
  - unfold bind. rewrite length_app in Hd. simpl in Hd.
    rewrite register_table_of by lia.
    rewrite IH
      by (rewrite <- app_assoc; simpl; rewrite length_app; simpl; lia).
    now rewrite <- app_assoc.
Qed.

Lemma register_all_app (plugin_list : plugin_table)
    (a b : list screenshot_plugin) (tr : list event) :
  register_all plugin_list (a ++ b) tr
  = match register_all plugin_list a tr with
    | (Returns plugin_list', tr') => register_all plugin_list' b tr'
    | (Exits status, tr') => (Exits status, tr')
    | (Faults f, tr') => (Faults f, tr')
    end.
Proof.
  revert plugin_list tr. induction a as [|p a IH]; intros plugin_list tr; simpl.
  - reflexivity.
  - unfold bind.
    destruct (screenshot_plugin_register plugin_list p tr) as [[t| |] tr'];
      [apply IH | reflexivity..].
Qed.

(** X12.  Registering at most [PLUGIN_LIST_SIZE_MAX] descriptors in an
    empty table succeeds without any output, and what was registered is
    read back in the same order: the k-th registered descriptor is the
    entry of index k, the entries after the last one are NULL, and the
    loops over the table visit the descriptors in registration order. *)
Theorem registration_round_trip (plugins : list screenshot_plugin)
    (tr : list event) :
  (List.length plugins <= Z.to_nat PLUGIN_LIST_SIZE_MAX)%nat ->
  exists plugin_list,
    register_all empty_plugin_list plugins tr = (Returns plugin_list, tr)
    /\ (forall k : nat, slot plugin_list (Z.of_nat k) = plugins !! k)
    /\ registered plugin_list = number_from 0 plugins
    /\ List.length plugin_list = Z.to_nat PLUGIN_LIST_SIZE_MAX.
Proof.
  intros Hlen. exists (table_of plugins).
  destruct (registration_order plugins tr Hlen) as [Hrun Hreg].
  split; [exact Hrun|]. split; [intros k; apply slot_table_of|].
  split; [exact Hreg|].
  unfold table_of. rewrite length_app, length_fmap, length_replicate. lia.
Qed.

Lemma registration_round_trip_witness :
  exists plugin_list,
    register_all empty_plugin_list [Bench.foo; Bench.foo_bar] []
    = (Returns plugin_list, [])
    /\ slot plugin_list 1 = Some Bench.foo_bar
    /\ slot plugin_list 2 = None.
Proof.
  destruct (registration_round_trip [Bench.foo; Bench.foo_bar] []
              ltac:(vm_compute; lia))
    as (plugin_list & Hrun & Hslot & _).
  exists plugin_list. split; [exact Hrun|]. split.
  - exact (Hslot 1%nat).
  - exact (Hslot 2%nat).
Defined.

(** X13.  The table holds [PLUGIN_LIST_SIZE_MAX] descriptors and no more:
    a registration that follows [PLUGIN_LIST_SIZE_MAX] registrations
    prints the list-full diagnostic and exits with [EXIT_FAILURE], and the
    registrations after it do not happen. *)
Theorem registration_overflow_is_fatal (plugins more : list screenshot_plugin)
    (plugin : screenshot_plugin) (tr : list event) :
  List.length plugins = Z.to_nat PLUGIN_LIST_SIZE_MAX ->
  register_all empty_plugin_list (plugins ++ plugin :: more) tr
  = (Exits EXIT_FAILURE,
     tr ++ [Stdout ("Error: Screenshot plugin list full" ++ nl)%string]).
Proof.
  intros Hlen. rewrite register_all_app.
  change empty_plugin_list with (table_of []).
  rewrite register_all_table_of by (simpl; lia).
  simpl. unfold bind at 1, screenshot_plugin_register.
  rewrite (first_free_table_of plugins _ 0) by lia.
  rewrite Nat.min_l by lia. rewrite Hlen, Z2Nat.id by (vm_compute; discriminate).
  change (PLUGIN_LIST_SIZE_MAX >=? PLUGIN_LIST_SIZE_MAX) with true.
  reflexivity.
Qed.

Lemma registration_overflow_is_fatal_witness :
  register_all empty_plugin_list
    (List.repeat Bench.foo 50 ++ Bench.foo_bar :: [Bench.silent]) []
  = (Exits 1, [Stdout ("Error: Screenshot plugin list full" ++ nl)%string]).
Proof.
  apply (registration_overflow_is_fatal (List.repeat Bench.foo 50)
           [Bench.silent] Bench.foo_bar []).
  reflexivity.
Defined.

(** X14.  [screenshot_register_plugins] never fails: it leaves the five
    built-in descriptors in the entries 0 to 4, in the order keysight,
    rigol 1000, rigol 2000, rs hmo1000, tektronix, and prints nothing. *)
Theorem builtin_plugins_registered_in_order
    (keysight_iv2000x rigol_1000 rigol_2000 rs_hmo1000 tektronix_2000
       : screenshot_plugin) (tr : list event) :
  exists plugin_list,
    screenshot_register_plugins keysight_iv2000x rigol_1000 rigol_2000
      rs_hmo1000 tektronix_2000 tr = (Returns plugin_list, tr)
    /\ registered plugin_list
       = [(0, keysight_iv2000x); (1, rigol_1000); (2, rigol_2000);
          (3, rs_hmo1000); (4, tektronix_2000)].
Proof.
  destruct (registration_order
              [keysight_iv2000x; rigol_1000; rigol_2000; rs_hmo1000;
               tektronix_2000] tr ltac:(vm_compute; lia)) as [Hrun Hreg].
  eexists. split; [exact Hrun | exact Hreg].
Qed.

Lemma find_loop_table_of (plugins : list screenshot_plugin)
    (plugin_name : string) (n k : nat) :
  match find_by_name (take n (drop k plugins)) plugin_name with
  | Some plugin =>
      exists i,
        find_loop (table_of plugins) plugin_name n (Z.of_nat k) = (false, i)
        /\ slot (table_of plugins) i = Some plugin
  | None =>
      fst (find_loop (table_of plugins) plugin_name n (Z.of_nat k)) = true
  end.
Proof.
  revert k. induction n as [|n IH]; intros k; simpl.
  - reflexivity.
  - rewrite slot_table_of. destruct (plugins !! k) as [plugin|] eqn:Ek.
    + rewrite (drop_S _ _ _ Ek). simpl.
      destruct (strcmp_eq (Plugin.name plugin) plugin_name).
      * exists (Z.of_nat k). split; [reflexivity|].
        now rewrite slot_table_of.
      * replace (Z.of_nat k + 1) with (Z.of_nat (S k)) by lia. apply IH.
    + apply lookup_ge_None in Ek. rewrite drop_ge by lia. reflexivity.
Qed.

(** X15.  Over a registry built by registration, the lookup by name finds
    the first descriptor of that name in registration order: names are not
    checked when descriptors are registered, and of two descriptors with
    the same name only the one registered first can be run by name. *)
Theorem explicit_lookup_first_registered {regex_t : Type}
    (regcomp : string -> option regex_t) (regexec : regex_t -> string -> bool)
    (W : world) (plugins : list screenshot_plugin)
    (address plugin_name filename : string) (timeout : Z) (tr : list event) :
  (List.length plugins <= Z.to_nat PLUGIN_LIST_SIZE_MAX)%nat ->
  address <> "" -> plugin_name <> "" ->
  screenshot regcomp regexec W (table_of plugins) address plugin_name filename
    timeout tr
  = match find_by_name plugins plugin_name with
    | Some plugin => Plugin.screenshot plugin address timeout tr
    | None =>
        (Exits EXIT_FAILURE,
         tr ++ [Stdout ("Error: Unknown plugin name" ++ nl)%string])
    end.
Proof.
  intros Hlen Haddr Hname. unfold screenshot.
  rewrite (strlen_nonempty _ Haddr), (strlen_nonempty _ Hname).
  pose proof (find_loop_table_of plugins plugin_name
                (Z.to_nat PLUGIN_LIST_SIZE_MAX) 0) as Hfind.
  rewrite drop_0, take_ge in Hfind by lia.
  change (Z.of_nat 0) with 0 in Hfind.
  unfold bind at 1, ret.
  destruct (find_by_name plugins plugin_name) as [plugin|].
  - destruct Hfind as (i & -> & Hslot).
    unfold bind, deref. now rewrite Hslot.
  - destruct (find_loop (table_of plugins) plugin_name _ 0) as [no_match i].
    simpl in Hfind. subst no_match. reflexivity.
Qed.

Lemma explicit_lookup_first_registered_witness :
  screenshot Literal.regcomp Literal.regexec (Bench.instrument None)
    (table_of [Bench.foo; Bench.plugin "a" (Some "BAR"); Bench.foo_bar])
    "10.0.0.42" "a" "" 5 []
  = Plugin.screenshot Bench.foo "10.0.0.42" 5 [].
Proof.
  apply (explicit_lookup_first_registered Literal.regcomp Literal.regexec
           (Bench.instrument None)
           [Bench.foo; Bench.plugin "a" (Some "BAR"); Bench.foo_bar]
           "10.0.0.42" "a" "" 5 []
           ltac:(vm_compute; lia) ltac:(discriminate) ltac:(discriminate)).
Defined.

(** ** The listing *)

Lemma longest_le (plugins : list screenshot_plugin) (bound : Z) :
  0 <= bound ->
  (forall plugin, In plugin plugins -> strlen (Plugin.name plugin) <= bound) ->
  longest plugins <= bound.
Proof.
  intros Hb. induction plugins as [|p plugins IH]; intros Hall; simpl; [lia|].
  assert (strlen (Plugin.name p) <= bound) by (apply Hall; now left).
  assert (longest plugins <= bound)
    by (apply IH; intros q Hq; apply Hall; now right).
  lia.
Qed.

Lemma names_fit_int_longest (plugin_list : plugin_table) :
  names_fit_int plugin_list ->
  longest (map snd (registered plugin_list)) <= INT_MAX.
Proof.
  intros Hfit. apply longest_le; [unfold INT_MAX; lia|].
  intros plugin Hin. apply List.in_map_iff in Hin as ([j q] & Hq & Hin).
  simpl in Hq. subst q. now apply (Hfit j).
Qed.

(** X16.  When the lengths of the registered names fit an [int], the column
    width that [screenshot_list_plugins] computes is the length of the
    longest registered name: no registered name is longer, and, unless
    nothing is registered (the width is then 0), one registered name has
    exactly that length. *)
Theorem listing_width_is_longest_name (plugin_list : plugin_table) :
  names_fit_int plugin_list ->
  let length_max :=
    longest_name plugin_list (Z.to_nat PLUGIN_LIST_SIZE_MAX) 0 0 in
  0 <= length_max <= INT_MAX
  /\ (forall j plugin, In (j, plugin) (registered plugin_list) ->
                       strlen (Plugin.name plugin) <= length_max)
  /\ ((registered plugin_list = [] /\ length_max = 0)
      \/ exists j plugin,
           In (j, plugin) (registered plugin_list)
           /\ strlen (Plugin.name plugin) = length_max).
Proof.
  intros Hfit length_max.
  pose proof (names_fit_int_longest _ Hfit) as Hle.
  pose proof (longest_nonneg (map snd (registered plugin_list))) as Hnn.
  assert (Hmax : length_max = longest (map snd (registered plugin_list))).
  { subst length_max. unfold registered in *.
    rewrite longest_name_max by (try exact Hle; lia). lia. }
  rewrite Hmax. split; [lia|]. split.
  - intros j plugin Hin. apply longest_bound.
    apply List.in_map_iff. now exists (j, plugin).
  - destruct (registered plugin_list) as [|e l] eqn:Er; [now left | right].
    destruct (longest_attained (map snd (e :: l)) ltac:(discriminate))
      as (plugin & Hin & Hlen).
    apply List.in_map_iff in Hin as ([j q] & Hq & Hin). simpl in Hq. subst q.
    now exists j, plugin.
Qed.

Lemma names_fit_int_family : names_fit_int Bench.family.
Proof.
  intros j plugin Hin. vm_compute in Hin.
  destruct Hin as [Heq|[Heq|[Heq|[]]]]; inversion Heq; subst;
    vm_compute; discriminate.
Defined.

Lemma listing_width_is_longest_name_witness :
  longest_name Bench.family (Z.to_nat PLUGIN_LIST_SIZE_MAX) 0 0 <= INT_MAX
  /\ strlen (Plugin.name Bench.silent)
     <= longest_name Bench.family (Z.to_nat PLUGIN_LIST_SIZE_MAX) 0 0.
Proof.
  destruct (listing_width_is_longest_name Bench.family names_fit_int_family)
    as ([_ Hmax] & Hbound & _).
  split; [exact Hmax|]. apply (Hbound 2). vm_compute. auto.
Defined.

Lemma putchar_times_stdout (n : nat) (c : ascii) (tr : list event) :
  exists out,
    putchar_times n c tr = (Returns tt, tr ++ out)
    /\ Forall (fun e => is_stdout e = true) out.
Proof.
  revert tr. induction n as [|n IH]; intros tr; simpl.
  - exists []. now rewrite app_nil_r.
  - unfold bind, putchar, emit_event.
    destruct (IH (tr ++ [Stdout (String c "")])) as (out & -> & Hout).
    exists (Stdout (String c "") :: out). rewrite <- app_assoc.
    split; [reflexivity | now constructor].
Qed.

Lemma print_rows_stdout plugin_list n i length_max tr :
  exists out,
    print_rows plugin_list n i length_max tr = (Returns tt, tr ++ out)
    /\ Forall (fun e => is_stdout e = true) out.
Proof.
  revert i tr. induction n as [|n IH]; intros i tr.
  - exists []. now rewrite app_nil_r.
  - cbn [print_rows]. destruct (slot plugin_list i) as [plugin|].
    2:{ exists []. now rewrite app_nil_r. }
    unfold bind at 1, put_spaces.
    destruct (putchar_times_stdout
                (Z.to_nat (size_t_sub length_max (strlen (Plugin.name plugin))))
                " " tr) as (pad & -> & Hpad).
    unfold bind at 1, printf at 1, emit_event.
    unfold bind at 1, printf at 1, emit_event.
    destruct (IH (i + 1)
                (((tr ++ pad) ++ [Stdout (Plugin.name plugin)])
                 ++ [Stdout ("   " ++ Plugin.description plugin ++ nl)%string]))
      as (out & -> & Hout).
    exists (pad ++ Stdout (Plugin.name plugin)
              :: Stdout ("   " ++ Plugin.description plugin ++ nl)%string
              :: out).
    split; [rewrite <- !app_assoc; reflexivity|].
    apply Forall_app. split; [exact Hpad|]. now repeat constructor.
Qed.

(** X17.  Listing the plugins only prints: for every table whose names
    have lengths that fit an [int], [screenshot_list_plugins] returns, and
    every event it adds is a write to stdout; it contacts no instrument,
    writes no file and never exits. *)
Theorem listing_only_prints (plugin_list : plugin_table) (tr : list event) :
  names_fit_int plugin_list ->
  exists out,
    screenshot_list_plugins plugin_list tr = (Returns tt, tr ++ out)
    /\ Forall (fun e => is_stdout e = true) out
    /\ transport_calls out = [].
Proof.
  intros _.
  unfold screenshot_list_plugins. unfold bind at 1, put_spaces.
  destruct (putchar_times_stdout
              (Z.to_nat (longest_name plugin_list
                           (Z.to_nat PLUGIN_LIST_SIZE_MAX) 0 0 - 4)) " " tr)
    as (pad & -> & Hpad).
  unfold bind at 1, printf, emit_event.
  destruct (print_rows_stdout plugin_list (Z.to_nat PLUGIN_LIST_SIZE_MAX) 0
              (longest_name plugin_list (Z.to_nat PLUGIN_LIST_SIZE_MAX) 0 0)
              ((tr ++ pad) ++ [Stdout ("Name   Description" ++ nl)%string]))
    as (rows & -> & Hrows).
  exists (pad ++ Stdout ("Name   Description" ++ nl)%string :: rows).
  assert (Hall : Forall (fun e => is_stdout e = true)
                   (pad ++ Stdout ("Name   Description" ++ nl)%string :: rows)).
  { apply Forall_app. split; [exact Hpad | now constructor]. }
  split; [rewrite <- !app_assoc; reflexivity|]. split; [exact Hall|].
  unfold transport_calls.
  induction Hall as [|e l He _ IH]; [reflexivity|]. simpl.
  destruct e; try discriminate. exact IH.
Qed.

Lemma listing_only_prints_witness :
  exists out,
    screenshot_list_plugins Bench.family [] = (Returns tt, out)
    /\ transport_calls out = [].
Proof.
  destruct (listing_only_prints Bench.family [] names_fit_int_family)
    as (out & Hrun & _ & Hnone).
  exists out. split; [exact Hrun | exact Hnone].
Defined.

(** ** date_time and the automatic file name *)

Lemma decimal_one_digit (fuel : nat) (n : Z) (acc : string) :
  0 <= n <= 9 ->
  decimal (S fuel) n acc = String (digit n) acc.
Proof.
  intros Hn. simpl. rewrite Z.mod_small, Z.div_small by lia. reflexivity.
Qed.

Lemma decimal_step (fuel : nat) (n : Z) (acc : string) :
  10 <= n ->
  decimal (S fuel) n acc = decimal fuel (n / 10) (String (digit (n mod 10)) acc).
Proof.
  intros Hn. simpl.
  assert (Hq : 1 <= n / 10) by (apply Z.div_le_lower_bound; lia).
  destruct (n / 10 =? 0) eqn:E; [lia | reflexivity].
Qed.

Lemma format_02d_two_digits (n : Z) :
  0 <= n <= 99 ->
  format_02d n = String (digit (n / 10)) (String (digit (n mod 10)) "").
Proof.
  intros Hn. unfold format_02d, format_d.
  destruct (n <? 0) eqn:Eneg; [lia|].
  destruct ((0 <=? n) && (n <? 10)) eqn:E.
  - apply andb_prop in E as [_ E]. apply Z.ltb_lt in E.
    rewrite decimal_one_digit by lia.
    now rewrite Z.div_small, Z.mod_small by lia.
  - assert (10 <= n) by (destruct (0 <=? n) eqn:E0; simpl in E; lia).
    rewrite decimal_step by lia.
    assert (n / 10 < 10) by (apply Z.div_lt_upper_bound; lia).
    assert (0 <= n / 10) by (apply Z.div_pos; lia).
    now rewrite decimal_one_digit by lia.
Qed.

Lemma format_d_four_digits (n : Z) :
  1000 <= n <= 9999 ->
  String.length (format_d n) = 4%nat.
Proof.
  intros Hn. unfold format_d. destruct (n <? 0) eqn:Eneg; [lia|].
  assert (100 <= n / 10 < 1000)
    by (split; [apply Z.div_le_lower_bound | apply Z.div_lt_upper_bound]; lia).
  assert (10 <= n / 10 / 10 < 100)
    by (split; [apply Z.div_le_lower_bound | apply Z.div_lt_upper_bound]; lia).
  assert (1 <= n / 10 / 10 / 10 < 10)
    by (split; [apply Z.div_le_lower_bound | apply Z.div_lt_upper_bound]; lia).
  rewrite !decimal_step by lia. rewrite decimal_one_digit by lia.
  reflexivity.
Qed.

Lemma date_time_text_fields (t : tm) :
  calendar t ->
  date_time_text t
  = (format_d (tm_year t + 1900) ++ "-"
     ++ String (digit ((tm_mon t + 1) / 10))
          (String (digit ((tm_mon t + 1) mod 10)) "") ++ "-"
     ++ String (digit (tm_mday t / 10)) (String (digit (tm_mday t mod 10)) "")
     ++ "_"
     ++ String (digit (tm_hour t / 10)) (String (digit (tm_hour t mod 10)) "")
     ++ ":"
     ++ String (digit (tm_min t / 10)) (String (digit (tm_min t mod 10)) "")
     ++ ":"
     ++ String (digit (tm_sec t / 10)) (String (digit (tm_sec t mod 10)) ""))%string
  /\ strlen (date_time_text t) = 19.
Proof.
  intros (Hsec & Hmin & Hhour & Hmday & Hmon & Hyear).
  assert (Hshape : date_time_text t = _)
    by (unfold date_time_text; rewrite !format_02d_two_digits by lia;
        reflexivity).
  split; [exact Hshape|].
  rewrite Hshape. unfold strlen.
  rewrite string_length_app, (format_d_four_digits _ Hyear). reflexivity.
Qed.

(** X18.  For a calendar time of the years 1000 to 9999, [date_time] builds
    a text of exactly 19 characters: four digits of the year and two
    digits, zero-padded, for each of month, day, hour, minute and second,
    with the separators [-], [-], [_], [:], [:].  With its terminator it
    fits the 50 bytes of [date_time_string]. *)
Theorem date_time_text_shape (t : tm) :
  calendar t ->
  let two n := String (digit (n / 10)) (String (digit (n mod 10)) "") in
  date_time_text t
  = (format_d (tm_year t + 1900) ++ "-" ++ two (tm_mon t + 1) ++ "-"
     ++ two (tm_mday t) ++ "_" ++ two (tm_hour t) ++ ":" ++ two (tm_min t)
     ++ ":" ++ two (tm_sec t))%string
  /\ String.length (format_d (tm_year t + 1900)) = 4%nat
  /\ strlen (date_time_text t) = 19
  /\ strlen (date_time_text t) + 1 <= 50.
Proof.
  intros Ht two. destruct (date_time_text_fields t Ht) as [Hshape Hlen].
  destruct Ht as (_ & _ & _ & _ & _ & Hyear).
  pose proof (format_d_four_digits _ Hyear) as Hy.
  repeat split; [exact Hshape | exact Hy | exact Hlen | lia].
Qed.

Lemma date_time_text_shape_witness :
  date_time_text {| tm_sec := 0; tm_min := 0; tm_hour := 12; tm_mday := 5;
                    tm_mon := 10; tm_year := 117 |}
  = "2017-11-05_12:00:00".
Proof.
  destruct (date_time_text_shape
              {| tm_sec := 0; tm_min := 0; tm_hour := 12; tm_mday := 5;
                 tm_mon := 10; tm_year := 117 |}
              ltac:(vm_compute; intuition discriminate)) as (Hshape & _).
  rewrite Hshape. reflexivity.
Defined.

(** X19.  Without a file name from the user, and with the clock text that
    [date_time] builds for a calendar time, the file name has 32 characters
    more than the address and the format together, so it fits the 1000
    bytes of [automatic_filename], terminator included, exactly when the
    address and the format have fewer than 968 characters together. *)
Theorem automatic_filename_length (W : world) (tr : list event)
    (format : string) (t : tm) :
  option_screenshot_filename W = "" ->
  date_time W tr = date_time_text t ->
  calendar t ->
  strlen (resolved_filename W tr format)
  = 32 + strlen (option_ip W) + strlen format
  /\ (strlen (resolved_filename W tr format) + 1 <= 1000
      <-> strlen (option_ip W) + strlen format < 968).
Proof.
  intros Hname Hclock Ht.
  destruct (date_time_text_fields t Ht) as [_ Hlen].
  assert (Hf : strlen (resolved_filename W tr format)
               = 32 + strlen (option_ip W) + strlen format).
  { unfold resolved_filename. rewrite Hname. change (strlen "" =? 0) with true.
    cbv iota. rewrite Hclock. unfold strlen in *.
    rewrite !string_length_app. simpl String.length. lia. }
  split; [exact Hf | lia].
Qed.

Lemma automatic_filename_length_witness :
  strlen (resolved_filename (Bench.instrument None) [] "bmp") = 44.
Proof.
  destruct (automatic_filename_length (Bench.instrument None) [] "bmp"
              {| tm_sec := 0; tm_min := 0; tm_hour := 12; tm_mday := 5;
                 tm_mon := 10; tm_year := 117 |}
              eq_refl eq_refl ltac:(vm_compute; intuition discriminate))
    as [Hlen _].
  rewrite Hlen. reflexivity.
Defined.

(** ** Timeouts and the bytes of the identity *)

(** X20.  [get_device_id] and the Siglent handler pass the timeout they
    are given to each of their transport calls: both start with
    [lxi_connect] on the address with that timeout, and every call they
    make that takes a timeout takes that one. *)
Theorem transport_calls_carry_the_argument (W : world) (address id : string)
    (timeout : Z) (tr : list event) :
  (exists rest,
     snd (get_device_id W address id timeout tr)
     = tr ++ Connect address 0 timeout :: rest
     /\ Forall (fun e => forall t, timeout_of e = Some t -> t = timeout) rest)
  /\ (exists rest,
        snd (siglent_sdm3000_screenshot W address id timeout tr)
        = tr ++ Connect address 0 timeout :: rest
        /\ Forall (fun e => forall t, timeout_of e = Some t -> t = timeout)
             rest).
Proof.
  split; [apply get_device_id_trace | apply siglent_sdm3000_screenshot_trace].
Qed.

Lemma buffer_set_length (buf : string) (n : nat) (c : ascii) :
  String.length (buffer_set buf n c) = String.length buf.
Proof.
  revert n. induction buf as [|b buf IH]; intros [|n]; simpl; auto.
Qed.

Lemma buffer_get_set_other (buf : string) (n k : nat) (c : ascii) :
  k <> n -> buffer_get (buffer_set buf n c) k = buffer_get buf k.
Proof.
  revert n k. induction buf as [|b buf IH]; intros [|n] [|k] Hk; simpl;
    first [reflexivity | congruence | apply IH; congruence].
Qed.

(** X21.  Removing the trailing newline changes at most one byte: when the
    statement runs without fault it prints nothing, the array keeps its
    length, and every byte but the one of index [length - 1] is as it
    was. *)
Theorem remove_trailing_newline_touches_one_byte (id : string) (length : Z)
    (tr tr' : list event) (id' : string) :
  remove_trailing_newline id length tr = (Returns id', tr') ->
  tr' = tr
  /\ 0 <= length - 1 < ID_LENGTH_MAX
  /\ String.length id' = String.length id
  /\ forall k : nat, k <> Z.to_nat (length - 1) ->
       buffer_get id' k = buffer_get id k.
Proof.
  unfold remove_trailing_newline, bind, id_read, id_write.
  destruct ((length - 1 <? 0) || (ID_LENGTH_MAX <=? length - 1)) eqn:E;
    [discriminate|].
  apply orb_false_iff in E as [E1 E2].
  unfold ret. destruct (Ascii.eqb _ newline); intros [= <- <-].
  - repeat split; try lia; [apply buffer_set_length|].
    intros k Hk. now apply buffer_get_set_other.
  - repeat split; lia.
Qed.

Lemma remove_trailing_newline_touches_one_byte_witness :
  String.length (String "F" (String "O" (String "O" (String NUL "stale"))))
  = String.length ("FOO" ++ nl ++ "stale")%string
  /\ buffer_get (String "F" (String "O" (String "O" (String NUL "stale")))) 5
     = buffer_get ("FOO" ++ nl ++ "stale")%string 5.
Proof.
  destruct (remove_trailing_newline_touches_one_byte
              ("FOO" ++ nl ++ "stale")%string 4 [] []
              (String "F" (String "O" (String "O" (String NUL "stale"))))
              eq_refl) as (_ & _ & Hlen & Hother).
  split; [exact Hlen | apply Hother; discriminate].
Defined.
